(** * RepoLib [util.py]: entry reconciliation and line validation

    A shallow embedding of the helper functions of [repolib/util.py]
    ([compare_sources], [find_differences_sources], [combine_sources],
    [fetch_key], [url_validator], [validate_debline], [strip_hashes])
    together with the Python primitives they call, and the properties the
    specification states about them. *)

From Stdlib Require Import String Ascii.
From Stdlib Require Import List NArith Bool Arith Lia.
Import ListNotations.

Set Implicit Arguments.

(** ** Python strings

    A Python [str] is a sequence of Unicode code points; a code point is
    modelled as a number in [N]. *)
Module PyStr.

Abbreviation char := N.
Abbreviation str := (list N).

(** String literals of the source, read one code point per character. *)
Definition py (s : string) : str :=
  map N_of_ascii (list_ascii_of_string s).
Arguments py s%_string.

(** A character literal of the source. *)
Definition chr (a : ascii) : char := N_of_ascii a.
Arguments chr a%_char.

(** [s == t] *)
Fixpoint eqb (s t : str) : bool :=
  match s, t with
  | [], [] => true
  | c :: s', d :: t' => N.eqb c d && eqb s' t'
  | _, _ => false
  end.

(** [k in l] for a list or tuple of strings [l] *)
Definition mem (k : str) (l : list str) : bool := existsb (eqb k) l.

(** [c in s] for a one-character string [c] *)
Definition has_char (c : char) (s : str) : bool := existsb (N.eqb c) s.

(** [s.startswith(p)] *)
Fixpoint startswith (p s : str) : bool :=
  match p, s with
  | [], _ => true
  | c :: p', d :: s' => N.eqb c d && startswith p' s'
  | _ :: _, [] => false
  end.

(** [s.endswith(p)] *)
Definition endswith (p s : str) : bool := startswith (rev p) (rev s).

(** The code points Python treats as whitespace in [str.strip()] and
    [str.split()] (those for which [str.isspace] holds). *)
Definition isspace (c : char) : bool :=
  ((9 <=? c) && (c <=? 13) || (28 <=? c) && (c <=? 32)
   || (c =? 133) || (c =? 160) || (c =? 5760)
   || (8192 <=? c) && (c <=? 8202)
   || (c =? 8232) || (c =? 8233) || (c =? 8239) || (c =? 8287)
   || (c =? 12288))%N.

(** Dropping the leading characters that satisfy [p]. *)
Fixpoint lstrip_by (p : char -> bool) (s : str) : str :=
  match s with
  | [] => []
  | c :: s' => if p c then lstrip_by p s' else s
  end.

(** Dropping the trailing characters that satisfy [p]. *)
Fixpoint rstrip_by (p : char -> bool) (s : str) : str :=
  match s with
  | [] => []
  | c :: s' =>
      match rstrip_by p s' with
      | [] => if p c then [] else [c]
      | r => c :: r
      end
  end.

Definition strip_by (p : char -> bool) (s : str) : str :=
  rstrip_by p (lstrip_by p s).

(** [s.strip()] *)
Definition strip (s : str) : str := strip_by isspace s.

(** [s.strip(chars)] *)
Definition strip_chars (chars : str) (s : str) : str :=
  strip_by (fun c => has_char c chars) s.

(** [s.replace(c, '')] for a one-character string [c] *)
Definition remove_char (c : char) (s : str) : str :=
  filter (fun d => negb (N.eqb d c)) s.

(** [s.split()]: the maximal runs of non-whitespace characters.  [tok] is
    the run being read. *)
Definition flush (tok : str) : list str :=
  match tok with [] => [] | _ => [tok] end.

Fixpoint split_from (tok : str) (s : str) : list str :=
  match s with
  | [] => flush tok
  | c :: s' =>
      if isspace c then flush tok ++ split_from [] s'
      else split_from (tok ++ [c]) s'
  end.

Definition split (s : str) : list str := split_from [] s.

(** [sep.join(l)] *)
Fixpoint join (sep : str) (l : list str) : str :=
  match l with
  | [] => []
  | [x] => x
  | x :: l' => x ++ sep ++ join sep l'
  end.

(** Truth value of a string: the empty string is false. *)
Definition truthy (s : str) : bool :=
  match s with [] => false | _ => true end.

(** [all(l)] for a list of strings *)
Definition all (l : list str) : bool := forallb truthy l.

End PyStr.
Import PyStr.

(** ** Exceptions and results *)

Inductive exn : Type :=
| KeyError
| ValueError
| AttributeError
| URLError
| HTTPError
| OSError.

(** [isinstance(e, urllib.error.URLError)]: [HTTPError] is a subclass. *)
Definition is_URLError (e : exn) : bool :=
  match e with
  | URLError | HTTPError => true
  | _ => false
  end.

(** The result of running a piece of Python code: a value, or an exception
    on its way to the caller. *)
Inductive outcome (A : Type) : Type :=
| Return (a : A)
| Raise (e : exn).
Arguments Return {A} a.
Arguments Raise {A} e.

Definition bind {A B} (m : outcome A) (f : A -> outcome B) : outcome B :=
  match m with
  | Return a => f a
  | Raise e => Raise e
  end.

Notation "x <- m ;; k" := (bind m (fun x => k))
  (at level 61, m at next level, right associativity).

(** [try: body / except: handler] with a bare [except]. *)
Definition try_except {A} (body : outcome A) (handler : outcome A)
  : outcome A :=
  match body with
  | Return a => Return a
  | Raise _ => handler
  end.

(** [try: body / except cls: handler] *)
Definition try_except_cls {A} (body : outcome A) (cls : exn -> bool)
  (handler : outcome A) : outcome A :=
  match body with
  | Return a => Return a
  | Raise e => if cls e then handler else Raise e
  end.

(** A [for] loop whose body either goes on to the next element ([None]) or
    returns from the enclosing function ([Some v]). *)
Fixpoint for_return {A R} (xs : list A) (body : A -> outcome (option R))
  : outcome (option R) :=
  match xs with
  | [] => Return None
  | x :: xs' =>
      r <- body x ;;
      match r with
      | Some v => Return (Some v)
      | None => for_return xs' body
      end
  end.

(** A [for] loop that updates a state. *)
Fixpoint for_state {A S} (xs : list A) (body : A -> S -> outcome S) (st : S)
  : outcome S :=
  match xs with
  | [] => Return st
  | x :: xs' => st' <- body x st ;; for_state xs' body st'
  end.

(** ** Entries

    Modelled from the spec: the [Source] class is not part of [util.py];
    section 3 of the specification describes an entry as an ordered mapping
    from field names to string values with unique keys.  It is modelled as
    a Python [dict]: an association list in insertion order. *)
Module PyDict.

Definition dict (V : Type) := list (str * V).

Section Ops.
Variable V : Type.

(** The keys, in iteration order ([for key in d]). *)
Definition keys (d : dict V) : list str := map fst d.

Fixpoint get (d : dict V) (k : str) : option V :=
  match d with
  | [] => None
  | (k', v) :: d' => if eqb k k' then Some v else get d' k
  end.

(** [k in d] *)
Definition contains (d : dict V) (k : str) : bool :=
  match get d k with Some _ => true | None => false end.

(** [d[k]] *)
Definition getitem (d : dict V) (k : str) : outcome V :=
  match get d k with Some v => Return v | None => Raise KeyError end.

(** [d[k] = v]: replaces the value of an existing key in place, or
    appends a new item. *)
Fixpoint setitem (d : dict V) (k : str) (v : V) : dict V :=
  match d with
  | [] => [(k, v)]
  | (k', v') :: d' =>
      if eqb k k' then (k', v) :: d' else (k', v') :: setitem d' k v
  end.

(** Keys are unique in a [dict]. *)
Definition unique_keys (d : dict V) : Prop := NoDup (keys d).

End Ops.

End PyDict.
Import PyDict.

Definition source := dict str.

(** ** [compare_sources] *)

Definition compare_sources (source1 source2 : source) (excl_keys : list str)
  : outcome bool :=
  r1 <- for_return (keys source1) (fun key =>
          if mem key excl_keys then Return None
          else if contains source2 key then
            v1 <- getitem source1 key ;;
            v2 <- getitem source2 key ;;
            if negb (eqb v1 v2) then Return (Some false)
            else Return None
          else Return (Some false)) ;;
  match r1 with
  | Some b => Return b
  | None =>
      r2 <- for_return (keys source2) (fun key =>
              if mem key excl_keys then Return None
              else if contains source1 key then
                v1 <- getitem source1 key ;;
                v2 <- getitem source2 key ;;
                if negb (eqb v1 v2) then Return (Some false)
                else Return None
              else Return (Some false)) ;;
      match r2 with
      | Some b => Return b
      | None => Return true
      end
  end.

(** ** [find_differences_sources] *)

(** A value of the returned dictionary: the pair
    [(source1[key], source2[key])]. *)
Definition diff := dict (str * str).

Definition find_differences_sources (source1 source2 : source)
  (excl_keys : list str) : outcome diff :=
  let differing_keys : diff := [] in
  differing_keys <- for_state (keys source1) (fun key differing_keys =>
    if mem key excl_keys then Return differing_keys
    else
      r <- (if contains source2 key then
              v1 <- getitem source1 key ;;
              v2 <- getitem source2 key ;;
              if eqb v1 v2 then Return None
              else
                v1 <- getitem source1 key ;;
                v2 <- getitem source2 key ;;
                Return (Some (setitem differing_keys key (v1, v2)))
            else Return (Some differing_keys)) ;;
      match r with
      | None => Return differing_keys
      | Some differing_keys =>
          v1 <- getitem source1 key ;;
          Return (setitem differing_keys key (v1, py ""))
      end) differing_keys ;;
  differing_keys <- for_state (keys source2) (fun key differing_keys =>
    if mem key excl_keys then Return differing_keys
    else
      r <- (if contains source1 key then
              v1 <- getitem source1 key ;;
              v2 <- getitem source2 key ;;
              if eqb v1 v2 then Return None else Return (Some tt)
            else Return (Some tt)) ;;
      match r with
      | None => Return differing_keys
      | Some _ =>
          v2 <- getitem source2 key ;;
          Return (setitem differing_keys key (py "", v2))
      end) differing_keys ;;
  Return differing_keys.

(** ** [combine_sources] *)

(** The tuple of keys the two concatenation loops skip. *)
Definition identity_keys : list str :=
  [py "X-Repolib-Name"; py "X-Repolib-ID"; py "Enabled"; py "Types"].

(** The inner loop [for val in vals: if val not in newvals:
    newvals.append(val)], started from [newvals]. *)
Definition dedup_loop (vals : list str) (newvals : list str) : list str :=
  fold_left
    (fun newvals val => if mem val newvals then newvals else newvals ++ [val])
    vals newvals.

(** The body of the two deduplication loops, run on the dictionary [d]. *)
Definition dedup_values (d : source) : outcome source :=
  for_state (keys d) (fun key d =>
    v <- getitem d key ;;
    let vals := split (strip v) in
    let newvals := dedup_loop vals [] in
    Return (setitem d key (join (py " ") newvals))) d.

(** [combine_sources] returns nothing and mutates both arguments; the model
    returns their final contents.  The two arguments are distinct
    objects. *)
Definition combine_sources (source1 source2 : source)
  : outcome (source * source) :=
  source1 <- for_state (keys source1) (fun key source1 =>
    if mem key identity_keys then Return source1
    else if contains source2 key then
      v1 <- getitem source1 key ;;
      v2 <- getitem source2 key ;;
      Return (setitem source1 key (v1 ++ py " " ++ v2))
    else Return source1) source1 ;;
  source1 <- for_state (keys source2) (fun key source1 =>
    if mem key identity_keys then Return source1
    else if contains source1 key then
      v1 <- getitem source1 key ;;
      v2 <- getitem source2 key ;;
      Return (setitem source1 key (v1 ++ py " " ++ v2))
    else Return source1) source1 ;;
  source1 <- dedup_values source1 ;;
  source2 <- dedup_values source2 ;;
  Return (source1, source2).

(** ** [fetch_key] *)

Definition KEYSERVER_QUERY_URL : str :=
  py "http://keyserver.ubuntu.com/pks/lookup?op=get&search=0x".

Section KeyFetcher.

(** The network: [urllib.request.urlopen] and the [read] method of the
    response object it returns. *)
Variable response : Type.
Variable urlopen : str -> outcome response.
Variable read : response -> outcome str.

Definition fetch_key (fingerprint query_url : str) : outcome str :=
  let full_url := query_url ++ fingerprint in
  req <- try_except_cls
           (r <- urlopen full_url ;; Return (Some r))
           is_URLError
           (Return None) ;;
  match req with
  | Some r => read r
  | None => Raise AttributeError
  end.

End KeyFetcher.

(** ** [urllib.parse.urlparse]

    The standard library function [url_validator] calls, modelled after
    CPython 3.12 for the attributes [url_validator] reads. *)
Module Urllib.

Record ParseResult : Type := mkParseResult {
  scheme : str;
  netloc : str;
  path : str;
  params : str;
  query : str;
  fragment : str
}.

(** [s.partition(c)]: the text before and after the first [c]. *)
Fixpoint partition_at (c : char) (s : str) : option (str * str) :=
  match s with
  | [] => None
  | d :: s' =>
      if N.eqb d c then Some ([], s')
      else match partition_at c s' with
           | Some (a, b) => Some (d :: a, b)
           | None => None
           end
  end.

(** [s.rpartition(c)]: the text before and after the last [c]. *)
Definition rpartition_at (c : char) (s : str) : option (str * str) :=
  match partition_at c (rev s) with
  | Some (a, b) => Some (rev b, rev a)
  | None => None
  end.

Definition is_ascii_alpha (c : char) : bool :=
  ((65 <=? c) && (c <=? 90) || (97 <=? c) && (c <=? 122))%N.

Definition is_digit (c : char) : bool := ((48 <=? c) && (c <=? 57))%N.

(** [scheme_chars] *)
Definition is_scheme_char (c : char) : bool :=
  is_ascii_alpha c || is_digit c || has_char c (py "+-.").

(** [str.lower] on a string of scheme characters. *)
Definition lower (c : char) : char :=
  if ((65 <=? c) && (c <=? 90))%N then (c + 32)%N else c.

Definition is_ascii (s : str) : bool := forallb (fun c => (c <? 128)%N) s.

(** [_WHATWG_C0_CONTROL_OR_SPACE] *)
Definition is_c0_or_space (c : char) : bool := (c <=? 32)%N.

(** [_UNSAFE_URL_BYTES_TO_REMOVE]: tab, carriage return, newline. *)
Definition is_unsafe (c : char) : bool :=
  ((c =? 9) || (c =? 13) || (c =? 10))%N.

(** [uses_params] *)
Definition uses_params : list str :=
  [py ""; py "ftp"; py "hdl"; py "prospero"; py "http"; py "imap";
   py "https"; py "shttp"; py "rtsp"; py "rtspu"; py "sip"; py "sips";
   py "mms"; py "sftp"; py "tel"].

(** The scheme of [url], if it has one, and the rest of [url]. *)
Definition split_scheme (url : str) : str * str :=
  match partition_at (chr ":") url with
  | Some (c0 :: pre, rest) =>
      if is_ascii_alpha c0 && forallb is_scheme_char (c0 :: pre)
      then (map lower (c0 :: pre), rest)
      else ([], url)
  | _ => ([], url)
  end.

(** [_splitnetloc(url, 2)] on the text after the two slashes: the part up
    to the first of [/], [?] and [#], and the rest. *)
Fixpoint splitnetloc (s : str) : str * str :=
  match s with
  | [] => ([], [])
  | c :: s' =>
      if has_char c (py "/?#") then ([], s)
      else let '(n, r) := splitnetloc s' in (c :: n, r)
  end.

(** [_splitparams(url)], first component. *)
Definition splitparams (url : str) : str :=
  match rpartition_at (chr "/") url with
  | Some (dir, base) =>
      match partition_at (chr ";") base with
      | Some (b, _) => dir ++ [chr "/"] ++ b
      | None => url
      end
  | None =>
      match partition_at (chr ";") url with
      | Some (b, _) => b
      | None => url
      end
  end.

Section Checks.

(** The two validations of the network location that depend on Unicode
    and IP address tables: whether [_check_bracketed_host] accepts the
    text between brackets, and whether the NFKC test of [_checknetloc]
    accepts a non-ASCII network location. *)
Variable bracketed_host_ok : str -> bool.
Variable nfkc_netloc_ok : str -> bool.

Definition check_brackets (netloc : str) : outcome unit :=
  let lb := has_char (chr "[") netloc in
  let rb := has_char (chr "]") netloc in
  if (lb && negb rb) || (rb && negb lb) then Raise ValueError
  else if lb && rb then
    let after :=
      match partition_at (chr "[") netloc with
      | Some (_, a) => a
      | None => []
      end in
    let host :=
      match partition_at (chr "]") after with
      | Some (h, _) => h
      | None => after
      end in
    if bracketed_host_ok host then Return tt else Raise ValueError
  else Return tt.

Definition checknetloc (netloc : str) : outcome unit :=
  if negb (truthy netloc) || is_ascii netloc then Return tt
  else if nfkc_netloc_ok netloc then Return tt
  else Raise ValueError.

Definition urlsplit (url : str) : outcome (str * str * str * str * str) :=
  let url := lstrip_by is_c0_or_space url in
  let url := filter (fun c => negb (is_unsafe c)) url in
  let '(scheme, url) := split_scheme url in
  nu <- (if startswith (py "//") url then
           let '(netloc, url) := splitnetloc (skipn 2 url) in
           _ <- check_brackets netloc ;;
           Return (netloc, url)
         else Return ([], url)) ;;
  let '(netloc, url) := nu in
  let '(url, fragment) :=
    match partition_at (chr "#") url with
    | Some (u, f) => (u, f)
    | None => (url, [])
    end in
  let '(url, query) :=
    match partition_at (chr "?") url with
    | Some (u, q) => (u, q)
    | None => (url, [])
    end in
  _ <- checknetloc netloc ;;
  Return (scheme, netloc, url, query, fragment).

Definition urlparse (url : str) : outcome ParseResult :=
  r <- urlsplit url ;;
  let '(scheme, netloc, url, query, fragment) := r in
  if mem scheme uses_params && has_char (chr ";") url then
    let path := splitparams url in
    Return (mkParseResult scheme netloc path
              (skipn (S (length path)) url) query fragment)
  else
    Return (mkParseResult scheme netloc url [] query fragment).

End Checks.

End Urllib.
Import Urllib.

(** ** [url_validator] and [validate_debline] *)

(** What a Python function without a declared type hands back here:
    [None], [True] or [False]. *)
Inductive pyobj : Type :=
| PyNone
| PyBool (b : bool).

Section Validator.

Variable urlparse : str -> outcome ParseResult.

Definition url_validator (url : str) : outcome bool :=
  try_except
    (result <- urlparse url ;;
     if negb (truthy (scheme result)) then Return false
     else if eqb (scheme result) (py "x-repolib-name") then Return false
     else if truthy (netloc result) then
       Return (all [scheme result; netloc result])
     else if truthy (path result) then
       Return (all [scheme result; path result])
     else Return false)
    (Return false).

(** The first statement of [validate_debline]: the line the
    classification is run on. *)
Definition uncomment (valid : str) : str :=
  if startswith (py "#") valid then strip (remove_char (chr "#") valid)
  else valid.

Definition validate_debline (valid : str) : outcome pyobj :=
  let valid := uncomment valid in
  if startswith (py "deb") valid then
    let words := split valid in
    r <- for_return words (fun word =>
           ok <- url_validator word ;;
           if ok then Return (Some true) else Return None) ;;
    match r with
    | Some b => Return (PyBool b)
    | None => Return PyNone
    end
  else if startswith (py "ppa:") valid then
    if has_char (chr "/") valid then Return (PyBool true)
    else Return PyNone
  else
    if endswith (py ".flatpakrepo") valid then Return (PyBool false)
    else if Nat.eqb (length (split valid)) 1 then
      ok <- url_validator valid ;;
      Return (PyBool ok)
    else Return (PyBool false).

End Validator.

(** ** [strip_hashes]

    The [while True] loop, run for at most [fuel] iterations; [None] when
    the iterations are used up before the [break]. *)
Fixpoint strip_hashes_loop (fuel : nat) (line : str) : option str :=
  match fuel with
  | O => None
  | S fuel' =>
      let line := strip_chars (py "#") line in
      let line := strip line in
      if negb (startswith (py "#") line) then Some line
      else strip_hashes_loop fuel' line
  end.

Definition strip_hashes (line : str) : option str :=
  strip_hashes_loop (S (length line)) line.

(** ** Enumerations and tables *)

(** [str.replace(old, new)] for a non-empty [old]: the occurrences of
    [old] are replaced from left to right, without overlap.  [skip] counts
    the characters of an occurrence still to be passed over. *)
Fixpoint replace_from (old new : str) (skip : nat) (s : str) : str :=
  match s with
  | [] => []
  | c :: s' =>
      match skip with
      | S k => replace_from old new k s'
      | O =>
          if startswith old s
          then new ++ replace_from old new (pred (length old)) s'
          else c :: replace_from old new O s'
      end
  end.

Definition replace (old new s : str) : str := replace_from old new O s.

Inductive SourceFormat : Type := DEFAULT | LEGACY.

Definition SourceFormat_value (f : SourceFormat) : str :=
  match f with
  | DEFAULT => py "sources"
  | LEGACY => py "list"
  end.

Inductive SourceType : Type := BINARY | SOURCECODE.

Definition SourceType_value (t : SourceType) : str :=
  match t with
  | BINARY => py "deb"
  | SOURCECODE => py "deb-src"
  end.

(** [SourceType.ident] *)
Definition ident (self : SourceType) : str :=
  let ident := SourceType_value self in
  let ident := replace (py "deb-src") (py "source") ident in
  let ident := replace (py "deb") (py "binary") ident in
  ident.

Definition valid_keys : list str :=
  [py "X-Repolib-Name:"; py "X-Repolib-Ident:";
   py "X-Repolib-Default-Mirror:"; py "X-Repolib-Comment"; py "Enabled:";
   py "Types:"; py "URIs:"; py "Suites:"; py "Components:";
   py "Architectures:"; py "Languages:"; py "Targets:"; py "PDiffs:";
   py "By-Hash:"; py "Allow-Insecure:"; py "Allow-Weak:";
   py "Allow-Downgrade-To-Insecure:"; py "Trusted:"; py "Signed-By:";
   py "Check-Valid-Until:"; py "Valid-Until-Min:"; py "Valid-Until-Max:"].

Definition options_inmap : dict str :=
  [(py "arch", py "Architectures");
   (py "lang", py "Languages");
   (py "target", py "Targets");
   (py "pdiffs", py "PDiffs");
   (py "by-hash", py "By-Hash");
   (py "allow-insecure", py "Allow-Insecure");
   (py "allow-weak", py "Allow-Weak");
   (py "allow-downgrade-to-insecure", py "Allow-Downgrade-To-Insecure");
   (py "trusted", py "Trusted");
   (py "signed-by", py "Signed-By");
   (py "check-valid-until", py "Check-Valid-Until");
   (py "valid-until-min", py "Valid-Until-Min");
   (py "valid-until-max", py "Valid-Until-Max")].

Definition options_outmap : dict str :=
  [(py "Architectures", py "arch");
   (py "Languages", py "lang");
   (py "Targets", py "target");
   (py "PDiffs", py "pdiffs");
   (py "By-Hash", py "by-hash");
   (py "Allow-Insecure", py "allow-insecure");
   (py "Allow-Weak", py "allow-weak");
   (py "Allow-Downgrade-To-Insecure", py "allow-downgrade-to-insecure");
   (py "Trusted", py "trusted");
   (py "Signed-By", py "signed-by");
   (py "Check-Valid-Until", py "check-valid-until");
   (py "Valid-Until-Min", py "valid-until-min");
   (py "Valid-Until-Max", py "valid-until-max")].

(** [CLEAN_CHARS], a table for [str.translate]: a code point is mapped to
    [None] (the character is deleted) or to the code point that replaces
    it. *)
Definition CLEAN_CHARS : list (char * option char) :=
  [(33, None); (64, Some 45); (35, Some 45); (36, Some 45); (37, Some 45);
   (94, Some 45); (38, Some 45); (42, Some 45); (41, None); (40, None);
   (43, Some 45); (61, Some 45); (91, None); (92, None); (93, None);
   (123, None); (125, None); (124, Some 95); (63, None); (47, Some 95);
   (46, Some 45); (60, Some 95); (62, Some 95); (44, Some 95); (96, None);
   (126, None); (32, Some 95); (58, None); (59, None)]%N.

(** [table[c]], a [LookupError] being [None]. *)
Fixpoint table_get (table : list (char * option char)) (c : char)
  : option (option char) :=
  match table with
  | [] => None
  | (k, v) :: table' => if N.eqb c k then Some v else table_get table' c
  end.

(** [s.translate(table)]: a character without an entry is kept. *)
Definition translate (table : list (char * option char)) (s : str) : str :=
  flat_map (fun c =>
    match table_get table c with
    | None => [c]
    | Some None => []
    | Some (Some d) => [d]
    end) s.

(** ** The directories: [get_sources_dir], [get_keys_dir],
    [get_source_path], [prettyprint_enable] *)

(** The module-level variables the functions assign to. *)
Record globals : Type := mkGlobals {
  SOURCES_DIR : str;
  KEYS_DIR : str;
  PRETTY_PRINT : str
}.

Definition initial_globals : globals :=
  mkGlobals (py "/etc/apt/sources.list.d") (py "/usr/share/keyrings/")
    [10; 32; 32; 32; 32]%N.

Section PathResolver.

(** [pathlib.Path]: construction from a string and the [/] operator. *)
Variable fspath : Type.
Variable Path : str -> fspath.
Variable joinpath : fspath -> str -> fspath.

(** The file system: [p.mkdir(parents=True, exist_ok=True)], which may
    fail and may have changed the file system even then, and
    [p.exists()]. *)
Variable world : Type.
Variable mkdir : fspath -> world -> outcome unit * world.
Variable path_exists : fspath -> world -> outcome bool.

(** The two messages [get_source_path] hands to [log.debug]. *)
Inductive log_record : Type :=
| TryingToLoad (p : fspath)
| PathExists (p : fspath).

Record state : Type := mkState {
  st_globals : globals;
  st_world : world;
  st_log : list log_record
}.

(** A function that reads and writes the state and may raise; the state
    it leaves is kept when it raises. *)
Definition run (A : Type) : Type := state -> outcome A * state.

Definition run_ret {A} (a : A) : run A := fun st => (Return a, st).

Definition run_bind {A B} (m : run A) (f : A -> run B) : run B :=
  fun st =>
    match m st with
    | (Return a, st') => f a st'
    | (Raise e, st') => (Raise e, st')
    end.

Notation "x <~ m ;; k" := (run_bind m (fun x => k))
  (at level 61, m at next level, right associativity).

Definition set_globals (f : globals -> globals) : run unit :=
  fun st => (Return tt, mkState (f (st_globals st)) (st_world st) (st_log st)).

Definition get_globals : run globals :=
  fun st => (Return (st_globals st), st).

Definition do_mkdir (p : fspath) : run unit :=
  fun st =>
    let '(r, w) := mkdir p (st_world st) in
    (r, mkState (st_globals st) w (st_log st)).

Definition do_exists (p : fspath) : run bool :=
  fun st => (path_exists p (st_world st), st).

(** [if log: log.debug(...)] *)
Definition debug (log : bool) (r : log_record) : run unit :=
  fun st =>
    if log
    then (Return tt, mkState (st_globals st) (st_world st) (st_log st ++ [r]))
    else (Return tt, st).

Definition prettyprint_enable (enabled : bool) : run unit :=
  if enabled then
    set_globals (fun g =>
      mkGlobals (SOURCES_DIR g) (KEYS_DIR g) [10; 32; 32; 32; 32]%N)
  else
    set_globals (fun g => mkGlobals (SOURCES_DIR g) (KEYS_DIR g) (py "")).

Definition get_keys_dir (testing : bool) : run fspath :=
  _ <~ (if testing then
          set_globals (fun g =>
            mkGlobals (SOURCES_DIR g) (py "/tmp/replib_testing/keys")
              (PRETTY_PRINT g))
        else run_ret tt) ;;
  g <~ get_globals ;;
  let keys_dir := Path (KEYS_DIR g) in
  _ <~ do_mkdir keys_dir ;;
  run_ret keys_dir.

Definition get_sources_dir (testing : bool) : run fspath :=
  _ <~ (if testing then
          set_globals (fun g =>
            mkGlobals (py "/tmp/repolib_testing") (KEYS_DIR g)
              (PRETTY_PRINT g))
        else run_ret tt) ;;
  g <~ get_globals ;;
  let sources_dir := Path (SOURCES_DIR g) in
  _ <~ do_mkdir sources_dir ;;
  run_ret sources_dir.

(** [log] tells whether a logger was passed. *)
Definition get_source_path (name : str) (log : bool) : run (option fspath) :=
  let full_name := name ++ py ".sources" in
  d <~ get_sources_dir false ;;
  let full_path := joinpath d full_name in
  _ <~ debug log (TryingToLoad full_path) ;;
  found <~ do_exists full_path ;;
  if found then
    _ <~ debug log (PathExists full_path) ;;
    run_ret (Some full_path)
  else
    let full_name := name ++ py ".list" in
    d <~ get_sources_dir false ;;
    let full_path := joinpath d full_name in
    _ <~ debug log (TryingToLoad full_path) ;;
    found <~ do_exists full_path ;;
    if found then
      _ <~ debug log (PathExists full_path) ;;
      run_ret (Some full_path)
    else run_ret None.

(** A call of one of the four functions. *)
Inductive call : Type :=
| GetSourcesDir (testing : bool)
| GetKeysDir (testing : bool)
| GetSourcePath (name : str) (log : bool)
| PrettyprintEnable (enabled : bool).

(** The state a call leaves, whether it returns or raises. *)
Definition after_call (c : call) (st : state) : state :=
  match c with
  | GetSourcesDir testing => snd (get_sources_dir testing st)
  | GetKeysDir testing => snd (get_keys_dir testing st)
  | GetSourcePath name log => snd (get_source_path name log st)
  | PrettyprintEnable enabled => snd (prettyprint_enable enabled st)
  end.

Definition after_calls (cs : list call) (st : state) : state :=
  fold_left (fun st c => after_call c st) cs st.

(** The calls that switch the sources, or the keys, directory to its
    testing value. *)
Definition sets_sources_testing (c : call) : bool :=
  match c with GetSourcesDir true => true | _ => false end.

Definition sets_keys_testing (c : call) : bool :=
  match c with GetKeysDir true => true | _ => false end.

End PathResolver.

(** ** Auxiliary definitions for the proofs *)

(** The test the two loops of [compare_sources] perform on a key. *)
Definition agree (s1 s2 : source) (excl : list str) (key : str) : bool :=
  mem key excl ||
  match get s1 key, get s2 key with
  | Some v1, Some v2 => eqb v1 v2
  | _, _ => false
  end.

(** The order-preserving deduplication of the specification: keep the
    first occurrence of each token. *)
Fixpoint first_occurrences (l : list str) : list str :=
  match l with
  | [] => []
  | x :: l' => x :: filter (fun y => negb (eqb y x)) (first_occurrences l')
  end.

(** The value the deduplication loops of [combine_sources] store for [v]. *)
Definition dedup_tokens (v : str) : str :=
  join (py " ") (first_occurrences (split v)).

(** The value the two concatenation loops of [combine_sources] leave in
    the first entry for key [k], whose original value is [v], when the
    second entry is [b]. *)
Definition concatenated (b : source) (k : str) (v : str) : str :=
  if mem k identity_keys then v
  else match get b k with
       | Some vb => v ++ py " " ++ vb
       | None => v
       end.

(** A token: a non-empty string without whitespace. *)
Definition is_token (t : str) : bool :=
  truthy t && forallb (fun c => negb (isspace c)) t.

(** A field value in the form the deduplication loops produce: distinct
    tokens separated by single spaces. *)
Definition normal_value (v : str) : Prop :=
  NoDup (split v) /\ join (py " ") (split v) = v.

(** The characters [strip_hashes] removes from the two ends of a line. *)
Definition trimmed (c : char) : bool := N.eqb c (chr "#") || isspace c.

(** A string that neither begins nor ends with a hash or whitespace. *)
Definition plain_ends (w : str) : Prop :=
  (forall c s, w = c :: s -> trimmed c = false) /\
  (forall c s, w = s ++ [c] -> trimmed c = false).

(** ** Example entries *)

Definition ex_focal : source :=
  [(py "X-Repolib-Name", py "Example"); (py "Suites", py "focal")].

Definition ex_focal_renamed : source :=
  [(py "Suites", py "focal"); (py "X-Repolib-Name", py "Other")].

Definition ex_jammy : source :=
  [(py "X-Repolib-Name", py "Example"); (py "Suites", py "jammy")].

Definition ex_suites_a : source :=
  [(py "X-Repolib-Name", py "Example"); (py "Enabled", py "yes");
   (py "Suites", py "focal focal-updates")].

Definition ex_suites_b : source :=
  [(py "X-Repolib-Name", py "Other"); (py "Suites", py "focal jammy")].

(** The fields the specification lists as identity and enablement
    fields. *)
Definition claimed_identity_keys : list str :=
  [py "Name"; py "X-Repolib-Name"; py "Ident"; py "X-Repolib-Ident";
   py "Enabled"; py "Types"].

Definition ex_ident_a : source :=
  [(py "X-Repolib-Name", py "New York New Jersey mirror");
   (py "X-Repolib-Ident", py "mirror-a")].

Definition ex_ident_b : source :=
  [(py "X-Repolib-Ident", py "mirror-b")].

(** ** Example environments *)

(** An instance of the [urlparse] model in which the two table-driven
    validations of the network location reject whatever they are asked
    about; they are only consulted for a network location with brackets
    or with a non-ASCII character. *)
Definition urlparse_strict : str -> outcome ParseResult :=
  Urllib.urlparse (fun _ => false) (fun _ => false).

(** A network on which every request fails with [URLError]. *)
Definition urlopen_unreachable (url : str) : outcome str := Raise URLError.

(** No leading and no trailing whitespace. *)
Definition no_outer_space (r : str) : Prop :=
  (forall c s, r = c :: s -> isspace c = false) /\
  (forall c s, r = s ++ [c] -> isspace c = false).

(** A toy file system for the examples: a path is a string, the world is
    the list of the paths that exist, and [mkdir] always succeeds. *)
Definition ex_joinpath (d name : str) : str := d ++ py "/" ++ name.

Definition ex_mkdir (p : str) (w : list str) : outcome unit * list str :=
  (Return tt, p :: w).

Definition ex_exists (p : str) (w : list str) : outcome bool :=
  Return (mem p w).

Definition ex_state : state str (list str) :=
  mkState initial_globals
    [py "/etc/apt/sources.list.d/myrepo.sources";
     py "/etc/apt/sources.list.d/myrepo.list"] [].

(** * Properties *)

(** ** Properties of the string and dictionary primitives *)

Lemma eqb_spec (s t : str) : reflect (s = t) (eqb s t).
Proof.
  revert t; induction s as [|c s IH]; intros [|d t]; simpl;
    try (constructor; congruence).
  destruct (N.eqb_spec c d) as [->|Hcd]; simpl.
  - destruct (IH t) as [->|Hst]; constructor; congruence.
  - constructor; congruence.
Qed.

Lemma eqb_refl (s : str) : eqb s s = true.
Proof. destruct (eqb_spec s s); congruence. Qed.

Lemma eqb_sym (s t : str) : eqb s t = eqb t s.
Proof.
  destruct (eqb_spec s t), (eqb_spec t s); congruence.
Qed.

Lemma mem_In (k : str) (l : list str) : mem k l = true <-> In k l.
Proof.
  unfold mem; rewrite existsb_exists; split.
  - intros (x & Hx & He). destruct (eqb_spec k x); congruence.
  - intros H; exists k; split; [assumption | apply eqb_refl].
Qed.

Lemma get_None_keys {V} (d : dict V) (k : str) :
  get d k = None <-> ~ In k (keys d).
Proof.
  induction d as [|[k' v] d IH]; simpl.
  - tauto.
  - destruct (eqb_spec k k') as [->|Hk].
    + split; [discriminate | intros H; exfalso; apply H; now left].
    + rewrite IH. split; intros H; [intros [E|E]; congruence | tauto].
Qed.

Lemma get_Some_keys {V} (d : dict V) (k : str) (v : V) :
  get d k = Some v -> In k (keys d).
Proof.
  intros H. destruct (in_dec (list_eq_dec N.eq_dec) k (keys d)) as [Hin|Hn].
  - assumption.
  - apply get_None_keys in Hn. congruence.
Qed.

Lemma keys_get_Some {V} (d : dict V) (k : str) :
  In k (keys d) -> exists v, get d k = Some v.
Proof.
  intros Hin. destruct (get d k) as [v|] eqn:E.
  - now exists v.
  - apply get_None_keys in E. contradiction.
Qed.

Lemma get_setitem_same {V} (d : dict V) (k : str) (v : V) :
  get (setitem d k v) k = Some v.
Proof.
  induction d as [|[k' v'] d IH]; simpl.
  - now rewrite eqb_refl.
  - destruct (eqb k k') eqn:E; simpl; rewrite E; [reflexivity | exact IH].
Qed.

Lemma get_setitem_other {V} (d : dict V) (k k' : str) (v : V) :
  k <> k' -> get (setitem d k' v) k = get d k.
Proof.
  intros Hk. induction d as [|[k0 v0] d IH]; simpl.
  - destruct (eqb_spec k k'); [contradiction | reflexivity].
  - destruct (eqb_spec k' k0) as [->|H0]; simpl.
    + destruct (eqb_spec k k0); [contradiction | reflexivity].
    + destruct (eqb k k0); [reflexivity | exact IH].
Qed.

Lemma setitem_not_nil {V} (d : dict V) (k : str) (v : V) :
  setitem d k v <> [].
Proof.
  destruct d as [|[k' v'] d]; simpl; [discriminate|].
  destruct (eqb k k'); discriminate.
Qed.

Lemma keys_setitem_in {V} (d : dict V) (k : str) (v : V) :
  In k (keys d) -> keys (setitem d k v) = keys d.
Proof.
  induction d as [|[k' v'] d IH]; simpl; [intros []|].
  intros Hin. destruct (eqb_spec k k') as [->|Hk]; simpl.
  - reflexivity.
  - f_equal. apply IH. destruct Hin; congruence.
Qed.

Lemma keys_setitem_notin {V} (d : dict V) (k : str) (v : V) :
  ~ In k (keys d) -> keys (setitem d k v) = keys d ++ [k].
Proof.
  induction d as [|[k' v'] d IH]; simpl; [reflexivity|].
  intros Hn. destruct (eqb_spec k k') as [->|Hk]; simpl.
  - exfalso; apply Hn; now left.
  - f_equal. apply IH. tauto.
Qed.

Lemma unique_keys_setitem {V} (d : dict V) (k : str) (v : V) :
  unique_keys d -> unique_keys (setitem d k v).
Proof.
  unfold unique_keys. intros Hd.
  destruct (in_dec (list_eq_dec N.eq_dec) k (keys d)) as [Hin|Hn].
  - now rewrite keys_setitem_in.
  - rewrite keys_setitem_notin by assumption.
    apply NoDup_app; [assumption | repeat constructor; intros [] |].
    intros x Hx [<-|[]]. contradiction.
Qed.

(** *** Loops *)

(** Invariant rule for a state-updating [for] loop whose body never
    raises: [Inv done st] relates the state to the elements already
    visited. *)
Lemma for_state_ind {A S} (body : A -> S -> outcome S)
  (Inv : list A -> S -> Prop) (xs : list A) (st : S) :
  Inv [] st ->
  (forall done x rest st, xs = done ++ x :: rest -> Inv done st ->
     exists st', body x st = Return st' /\ Inv (done ++ [x]) st') ->
  exists st', for_state xs body st = Return st' /\ Inv xs st'.
Proof.
  intros H0 Hstep.
  enough (G : forall rest pre st, xs = pre ++ rest -> Inv pre st ->
            exists st', for_state rest body st = Return st' /\ Inv xs st')
    by (apply (G xs [] st); [reflexivity | assumption]).
  induction rest as [|x rest IH]; intros pre st1 Hxs Hinv; simpl.
  - exists st1. rewrite app_nil_r in Hxs. subst xs. now split.
  - destruct (Hstep pre x rest st1 Hxs Hinv) as (st2 & -> & Hinv2). simpl.
    apply (IH (pre ++ [x])); [|assumption].
    now rewrite <- app_assoc.
Qed.

(** *** The comparison as a closed formula *)

Lemma agree_sym s1 s2 excl key :
  agree s1 s2 excl key = agree s2 s1 excl key.
Proof.
  unfold agree. destruct (get s1 key), (get s2 key); try reflexivity.
  now rewrite eqb_sym.
Qed.

Lemma for_return_pure {A R} (xs : list A) (body : A -> outcome (option R))
  (test : A -> bool) (r : R) :
  (forall x, In x xs -> body x = Return (if test x then None else Some r)) ->
  for_return xs body = Return (if forallb test xs then None else Some r).
Proof.
  induction xs as [|x xs IH]; intros Hb; simpl.
  - reflexivity.
  - rewrite (Hb x (or_introl eq_refl)). simpl.
    destruct (test x); simpl.
    + apply IH. intros y Hy. apply Hb. now right.
    + reflexivity.
Qed.

Lemma compare_sources_eq (s1 s2 : source) (excl : list str) :
  compare_sources s1 s2 excl =
  Return (forallb (agree s1 s2 excl) (keys s1)
          && forallb (agree s1 s2 excl) (keys s2)).
Proof.
  unfold compare_sources.
  rewrite (@for_return_pure _ _ (keys s1) _ (agree s1 s2 excl) false).
  2:{ intros key Hin. unfold agree, contains, getitem.
      destruct (mem key excl); [reflexivity|]. simpl.
      destruct (keys_get_Some s1 key Hin) as [v1 ->].
      destruct (get s2 key) as [v2|]; [|reflexivity]. simpl.
      destruct (eqb v1 v2); reflexivity. }
  simpl. destruct (forallb (agree s1 s2 excl) (keys s1)); [|reflexivity].
  rewrite (@for_return_pure _ _ (keys s2) _ (agree s1 s2 excl) false).
  2:{ intros key Hin. unfold agree, contains, getitem.
      destruct (mem key excl); [reflexivity|]. simpl.
      destruct (keys_get_Some s2 key Hin) as [v2 E2]. rewrite E2.
      destruct (get s1 key) as [v1|]; [|reflexivity]. simpl.
      destruct (eqb v1 v2); reflexivity. }
  simpl. destruct (forallb (agree s1 s2 excl) (keys s2)); reflexivity.
Qed.

Lemma agree_true_iff s1 s2 excl key :
  agree s1 s2 excl key = true <->
  (In key excl \/ exists v, get s1 key = Some v /\ get s2 key = Some v).
Proof.
  unfold agree. rewrite orb_true_iff, mem_In.
  split; (intros [H|H]; [now left | right]).
  - destruct (get s1 key) as [v1|], (get s2 key) as [v2|]; try discriminate.
    destruct (eqb_spec v1 v2); [subst; now exists v2 | discriminate].
  - destruct H as (v & -> & ->). apply eqb_refl.
Qed.

Lemma forallb_agree_sym a b E ks :
  forallb (agree a b E) ks = forallb (agree b a E) ks.
Proof.
  induction ks as [|k ks IH]; simpl; [reflexivity|].
  now rewrite IH, agree_sym.
Qed.

(** ** [compare_sources]: the contract *)

(** C1: [compare_sources] returns [True] exactly when every field that
    occurs in either entry and is not excluded is present in both entries
    with the same value; a field (not excluded) present in one entry and
    absent from the other makes it return [False]. *)
Theorem compare_sources_spec (a b : source) (E : list str) :
  (compare_sources a b E = Return true <->
   forall k, In k (keys a) \/ In k (keys b) -> ~ In k E ->
             exists v, get a k = Some v /\ get b k = Some v)
  /\
  (forall k, ~ In k E ->
             (In k (keys a) /\ ~ In k (keys b)) \/
             (In k (keys b) /\ ~ In k (keys a)) ->
             compare_sources a b E = Return false).
Proof.
  rewrite compare_sources_eq.
  assert (Hall : forallb (agree a b E) (keys a)
                 && forallb (agree a b E) (keys b) = true <->
                 forall k, In k (keys a) \/ In k (keys b) -> ~ In k E ->
                   exists v, get a k = Some v /\ get b k = Some v).
  { rewrite andb_true_iff, !forallb_forall. split.
    - intros [Ha Hb] k Hk HE.
      assert (Hag : agree a b E k = true) by (destruct Hk; auto).
      apply agree_true_iff in Hag. tauto.
    - intros H; split; intros k Hk; apply agree_true_iff;
        (destruct (in_dec (list_eq_dec N.eq_dec) k E) as [HE|HE];
         [now left | right; apply H; tauto]). }
  split.
  - rewrite <- Hall. split; [intros [= ->]; reflexivity | intros ->; reflexivity].
  - intros k HE Hk.
    destruct (forallb (agree a b E) (keys a)
              && forallb (agree a b E) (keys b)) eqn:Eall; [|reflexivity].
    exfalso. destruct (proj1 Hall eq_refl k) as (v & Ha & Hb);
      [tauto | assumption |].
    apply get_Some_keys in Ha, Hb. tauto.
Qed.

Lemma compare_sources_spec_witness :
  compare_sources ex_focal ex_focal_renamed [py "X-Repolib-Name"]
  = Return true
  /\ compare_sources ex_focal [] [py "X-Repolib-Name"] = Return false.
Proof.
  split.
  - apply (proj1 (compare_sources_spec ex_focal ex_focal_renamed
                    [py "X-Repolib-Name"])).
    intros k [Hk|Hk] HE; simpl in Hk;
      (destruct Hk as [<-|[<-|[]]];
       [exfalso; apply HE; left; reflexivity
       | exists (py "focal"); split; reflexivity])
      || (destruct Hk as [<-|[<-|[]]];
          [exists (py "focal"); split; reflexivity
          | exfalso; apply HE; left; reflexivity]).
  - apply (proj2 (compare_sources_spec ex_focal [] [py "X-Repolib-Name"])
             (py "Suites")).
    + intros [H|[]]. discriminate H.
    + left. split; [right; left; reflexivity | intros []].
Defined.

(** C2: the comparison is symmetric in its two entries. *)
Theorem compare_sources_sym (a b : source) (E : list str) :
  compare_sources a b E = compare_sources b a E.
Proof.
  rewrite !compare_sources_eq. f_equal.
  rewrite andb_comm. f_equal; apply forallb_agree_sym.
Qed.

(** ** [find_differences_sources] *)

(** What one iteration of the first loop does to [differing_keys]. *)
Lemma diff_body1 (a b : source) (E : list str) (key : str) (dk : diff) :
  In key (keys a) ->
  exists v1,
    get a key = Some v1 /\
    (if mem key E then Return dk
     else
       r <- (if contains b key then
               v1 <- getitem a key ;;
               v2 <- getitem b key ;;
               if eqb v1 v2 then Return None
               else
                 v1 <- getitem a key ;;
                 v2 <- getitem b key ;;
                 Return (Some (setitem dk key (v1, v2)))
             else Return (Some dk)) ;;
       match r with
       | None => Return dk
       | Some dk' =>
           v1 <- getitem a key ;;
           Return (setitem dk' key (v1, py ""))
       end)
    = Return (if agree a b E key then dk
              else match get b key with
                   | Some v2 =>
                       setitem (setitem dk key (v1, v2)) key (v1, py "")
                   | None => setitem dk key (v1, py "")
                   end).
Proof.
  intros Hin. destruct (keys_get_Some a key Hin) as [v1 E1].
  exists v1. split; [assumption|].
  unfold agree, contains, getitem. rewrite E1.
  destruct (mem key E); [reflexivity|]. simpl.
  destruct (get b key) as [v2|]; simpl; [|reflexivity].
  destruct (eqb v1 v2); reflexivity.
Qed.

(** What one iteration of the second loop does to [differing_keys]. *)
Lemma diff_body2 (a b : source) (E : list str) (key : str) (dk : diff) :
  In key (keys b) ->
  exists v2,
    get b key = Some v2 /\
    (if mem key E then Return dk
     else
       r <- (if contains a key then
               v1 <- getitem a key ;;
               v2 <- getitem b key ;;
               if eqb v1 v2 then Return None else Return (Some tt)
             else Return (Some tt)) ;;
       match r with
       | None => Return dk
       | Some _ =>
           v2 <- getitem b key ;;
           Return (setitem dk key (py "", v2))
       end)
    = Return (if agree a b E key then dk
              else setitem dk key (py "", v2)).
Proof.
  intros Hin. destruct (keys_get_Some b key Hin) as [v2 E2].
  exists v2. split; [assumption|].
  unfold agree, contains, getitem. rewrite E2.
  destruct (mem key E); [reflexivity|]. simpl.
  destruct (get a key) as [v1|]; simpl; [|reflexivity].
  destruct (eqb v1 v2); reflexivity.
Qed.

Lemma forallb_snoc {A} (f : A -> bool) (l : list A) (x : A) :
  forallb f (l ++ [x]) = forallb f l && f x.
Proof. rewrite forallb_app. simpl. now rewrite andb_true_r. Qed.

(** The difference is computed without an exception, and it is empty
    exactly when every key of both entries passes the test of
    [compare_sources]. *)
Lemma find_differences_sources_nil (a b : source) (E : list str) :
  exists d, find_differences_sources a b E = Return d /\
            (d = [] <-> forallb (agree a b E) (keys a)
                        && forallb (agree a b E) (keys b) = true).
Proof.
  unfold find_differences_sources.
  match goal with
  | |- context [for_state (keys a) ?body []] =>
      destruct (@for_state_ind _ _ body
                  (fun done dk => dk = [] <-> forallb (agree a b E) done = true)
                  (keys a) []) as (d1 & -> & H1)
  end.
  { simpl. tauto. }
  { intros done key rest dk Hxs Hinv.
    assert (Hin : In key (keys a))
      by (rewrite Hxs; apply in_or_app; right; now left).
    destruct (diff_body1 a b E key dk Hin) as (v1 & _ & Hbody).
    eexists; split; [exact Hbody|].
    rewrite forallb_snoc, andb_true_iff.
    destruct (agree a b E key).
    - rewrite Hinv. tauto.
    - split; [|intros [_ [=]]].
      destruct (get b key); intros H; exfalso;
        exact (setitem_not_nil _ _ _ H). }
  simpl.
  match goal with
  | |- context [for_state (keys b) ?body d1] =>
      destruct (@for_state_ind _ _ body
                  (fun done dk => dk = [] <->
                     d1 = [] /\ forallb (agree a b E) done = true)
                  (keys b) d1) as (d2 & -> & H2)
  end.
  { simpl. tauto. }
  { intros done key rest dk Hxs Hinv.
    assert (Hin : In key (keys b))
      by (rewrite Hxs; apply in_or_app; right; now left).
    destruct (diff_body2 a b E key dk Hin) as (v2 & _ & Hbody).
    eexists; split; [exact Hbody|].
    rewrite forallb_snoc, andb_true_iff.
    destruct (agree a b E key).
    - rewrite Hinv. tauto.
    - split; [|intros [_ [_ [=]]]].
      intros H; exfalso; exact (setitem_not_nil _ _ _ H). }
  simpl. exists d2. split; [reflexivity|].
  rewrite H2, H1, andb_true_iff. tauto.
Qed.

(** C4: [compare_sources] returns [True] exactly when
    [find_differences_sources] returns the empty dictionary. *)
Theorem compare_iff_no_differences (a b : source) (E : list str) :
  compare_sources a b E = Return true <->
  find_differences_sources a b E = Return [].
Proof.
  rewrite compare_sources_eq.
  destruct (find_differences_sources_nil a b E) as (d & -> & Hd).
  split.
  - intros [= H]. f_equal. now apply Hd.
  - intros [= H]. f_equal. now apply Hd.
Qed.

(** ** Whitespace tokens *)

Lemma split_from_app_space (tok x y : str) (sp : char) :
  isspace sp = true ->
  split_from tok (x ++ sp :: y) = split_from tok x ++ split y.
Proof.
  intros Hsp. revert tok.
  induction x as [|c x IH]; intros tok; simpl.
  - now rewrite Hsp.
  - destruct (isspace c).
    + now rewrite IH, app_assoc.
    + apply IH.
Qed.

Lemma split_app_space (x y : str) :
  split (x ++ py " " ++ y) = split x ++ split y.
Proof.
  unfold split. change (py " " ++ y) with (32%N :: y).
  now apply split_from_app_space.
Qed.

Lemma rstrip_by_nil (p : char -> bool) (s : str) :
  rstrip_by p s = [] -> forallb p s = true.
Proof.
  induction s as [|c s IH]; simpl; [reflexivity|].
  destruct (rstrip_by p s) eqn:E.
  - destruct (p c); [intros _; now apply IH | discriminate].
  - discriminate.
Qed.

Lemma split_from_spaces (tok s : str) :
  forallb isspace s = true -> split_from tok s = flush tok.
Proof.
  revert tok. induction s as [|c s IH]; intros tok; simpl; [reflexivity|].
  intros [Hc Hs]%andb_true_iff. rewrite Hc, (IH [] Hs). simpl.
  apply app_nil_r.
Qed.

Lemma split_from_cons (tok : str) (c : char) (s : str) :
  split_from tok (c :: s) =
  if isspace c then flush tok ++ split_from [] s
  else split_from (tok ++ [c]) s.
Proof. reflexivity. Qed.

Lemma split_from_rstrip (tok s : str) :
  split_from tok (rstrip_by isspace s) = split_from tok s.
Proof.
  revert tok. induction s as [|c s IH]; intros tok; [reflexivity|].
  simpl rstrip_by. destruct (rstrip_by isspace s) as [|d r] eqn:E.
  - apply rstrip_by_nil in E.
    simpl. destruct (isspace c) eqn:Hc; simpl.
    + now rewrite (split_from_spaces [] s E), app_nil_r.
    + now rewrite (split_from_spaces _ s E), Hc.
  - rewrite (split_from_cons tok c (d :: r)), (split_from_cons tok c s).
    destruct (isspace c); now rewrite IH.
Qed.

Lemma split_lstrip (s : str) : split (lstrip_by isspace s) = split s.
Proof.
  unfold split. induction s as [|c s IH]; simpl; [reflexivity|].
  destruct (isspace c) eqn:Hc; simpl.
  - exact IH.
  - now rewrite Hc.
Qed.

Lemma split_strip (s : str) : split (strip s) = split s.
Proof.
  unfold strip, strip_by, split. rewrite split_from_rstrip.
  apply split_lstrip.
Qed.

(** ** Deduplication *)

Lemma filter_filter {A} (f g : A -> bool) (l : list A) :
  filter f (filter g l) = filter (fun x => g x && f x) l.
Proof.
  induction l as [|x l IH]; simpl; [reflexivity|].
  destruct (g x); simpl; [destruct (f x)|]; now rewrite IH.
Qed.

Lemma first_occurrences_filter (p : str -> bool) (l : list str) :
  first_occurrences (filter p l) = filter p (first_occurrences l).
Proof.
  induction l as [|x l IH]; simpl; [reflexivity|].
  destruct (p x) eqn:Hp; simpl.
  - rewrite ?Hp, IH. f_equal.
    rewrite !filter_filter. apply filter_ext. intros y. apply andb_comm.
  - rewrite ?Hp, IH. rewrite filter_filter. apply filter_ext_in.
    intros y _. destruct (eqb_spec y x) as [->|]; simpl.
    + exact Hp.
    + reflexivity.
Qed.

Lemma mem_snoc (y : str) (acc : list str) (x : str) :
  mem y (acc ++ [x]) = mem y acc || eqb y x.
Proof. unfold mem. rewrite existsb_app. simpl. now rewrite orb_false_r. Qed.

(** The accumulating loop of the source computes [first_occurrences]. *)
Lemma dedup_loop_acc (vals acc : list str) :
  dedup_loop vals acc =
  acc ++ first_occurrences (filter (fun y => negb (mem y acc)) vals).
Proof.
  unfold dedup_loop. revert acc.
  induction vals as [|x vals IH]; intros acc; simpl.
  - now rewrite app_nil_r.
  - destruct (mem x acc) eqn:Hx; simpl.
    + apply IH.
    + rewrite IH, <- app_assoc. simpl. do 2 f_equal.
      rewrite <- first_occurrences_filter, filter_filter.
      f_equal. apply filter_ext. intros y.
      now rewrite mem_snoc, negb_orb, andb_comm.
Qed.

Lemma dedup_loop_first_occurrences (vals : list str) :
  dedup_loop vals [] = first_occurrences vals.
Proof.
  rewrite dedup_loop_acc. simpl. f_equal.
  induction vals as [|x vals IH]; simpl; congruence.
Qed.

Lemma first_occurrences_In (l : list str) (y : str) :
  In y (first_occurrences l) <-> In y l.
Proof.
  induction l as [|x l IH]; simpl; [tauto|].
  rewrite filter_In, IH. split.
  - tauto.
  - intros [->|H]; [now left|].
    destruct (eqb_spec y x) as [->|Hn]; [now left | right; now split].
Qed.

Lemma first_occurrences_app (l m : list str) :
  first_occurrences (l ++ m) =
  first_occurrences l
  ++ filter (fun y => negb (mem y l)) (first_occurrences m).
Proof.
  induction l as [|x l IH]; simpl.
  - symmetry. induction (first_occurrences m); simpl; congruence.
  - f_equal. rewrite IH, filter_app, filter_filter. f_equal.
    apply filter_ext. intros y. rewrite negb_orb. apply andb_comm.
Qed.

Lemma filter_none {A} (f : A -> bool) (l : list A) :
  (forall y, In y l -> f y = false) -> filter f l = [].
Proof.
  induction l as [|x l IH]; intros H; simpl; [reflexivity|].
  rewrite (H x (or_introl eq_refl)). apply IH. intros y Hy. apply H. now right.
Qed.

(** Tokens appended a second time leave the deduplication unchanged. *)
Lemma first_occurrences_app_twice (l m : list str) :
  first_occurrences ((l ++ m) ++ m) = first_occurrences (l ++ m).
Proof.
  rewrite (first_occurrences_app (l ++ m) m), filter_none.
  - apply app_nil_r.
  - intros y Hy. apply (proj1 (first_occurrences_In _ _)) in Hy.
    assert (Hm : mem y (l ++ m) = true)
      by (apply mem_In, in_or_app; now right).
    now rewrite Hm.
Qed.

Lemma dedup_step_tokens (v : str) :
  join (py " ") (dedup_loop (split (strip v)) []) = dedup_tokens v.
Proof.
  unfold dedup_tokens. now rewrite dedup_loop_first_occurrences, split_strip.
Qed.

(** ** Loops that rewrite the values of a dictionary *)

Lemma mem_snoc_notin (k x : str) (done : list str) :
  k <> x -> mem k (done ++ [x]) = mem k done.
Proof.
  intros Hk. rewrite mem_snoc.
  destruct (eqb_spec k x); [contradiction | apply orb_false_r].
Qed.

(** A loop over distinct keys [xs] whose body rewrites the value stored
    under the key it visits with [g], and nothing else. *)
Lemma for_state_update (g : str -> str -> str)
  (body : str -> source -> outcome source) (xs : list str) (st0 : source) :
  NoDup xs ->
  (forall x st, In x xs -> keys st = keys st0 ->
     exists st', body x st = Return st' /\ keys st' = keys st /\
                 get st' x = option_map (g x) (get st x) /\
                 forall k, k <> x -> get st' k = get st k) ->
  exists st', for_state xs body st0 = Return st' /\ keys st' = keys st0 /\
    forall k, get st' k =
              if mem k xs then option_map (g k) (get st0 k) else get st0 k.
Proof.
  intros Hnd Hbody.
  apply (@for_state_ind _ _ body
           (fun done st => keys st = keys st0 /\
              forall k, get st k =
                if mem k done then option_map (g k) (get st0 k)
                else get st0 k)).
  - split; reflexivity.
  - intros done x rest st Hxs [Hkeys Hget].
    assert (Hx : In x xs) by (rewrite Hxs; apply in_or_app; right; now left).
    assert (Hnew : mem x done = false).
    { destruct (mem x done) eqn:E; [|reflexivity].
      apply mem_In in E. rewrite Hxs in Hnd.
      apply NoDup_remove_2 in Hnd. exfalso. apply Hnd.
      apply in_or_app. now left. }
    destruct (Hbody x st Hx Hkeys) as (st' & Hb & Hk' & Hsame & Hother).
    exists st'. split; [assumption|]. split; [congruence|].
    intros k. destruct (eqb_spec k x) as [->|Hkx].
    + rewrite Hsame, Hget, Hnew, mem_snoc, eqb_refl, orb_true_r. reflexivity.
    + rewrite (Hother k Hkx), Hget, mem_snoc_notin by assumption. reflexivity.
Qed.

Lemma keys_eq_get_Some (d d0 : source) (k : str) :
  keys d = keys d0 -> In k (keys d0) -> exists v, get d k = Some v.
Proof. intros <- H. now apply keys_get_Some. Qed.

(** The effect of [d[k] = f(d[k])] on a dictionary that holds [k]. *)
Lemma setitem_update (d : source) (x : str) (v w : str) :
  get d x = Some v ->
  keys (setitem d x w) = keys d /\
  get (setitem d x w) x = option_map (fun _ => w) (get d x) /\
  forall k, k <> x -> get (setitem d x w) k = get d k.
Proof.
  intros Hv. split; [|split].
  - apply keys_setitem_in. eapply get_Some_keys; eassumption.
  - rewrite Hv. apply get_setitem_same.
  - intros k Hk. now apply get_setitem_other.
Qed.

Lemma mem_keys_get {V} (d : dict V) (k : str) :
  mem k (keys d) = match get d k with Some _ => true | None => false end.
Proof.
  destruct (get d k) eqn:E.
  - apply mem_In. eapply get_Some_keys; eassumption.
  - apply get_None_keys in E. destruct (mem k (keys d)) eqn:M; [|reflexivity].
    apply mem_In in M. contradiction.
Qed.

(** The deduplication loop rewrites every value with [dedup_tokens]. *)
Lemma dedup_values_get (d : source) :
  unique_keys d ->
  exists d', dedup_values d = Return d' /\ keys d' = keys d /\
             forall k, get d' k = option_map dedup_tokens (get d k).
Proof.
  intros Hnd. unfold dedup_values.
  match goal with
  | |- context [for_state (keys d) ?body d] =>
      destruct (@for_state_update (fun _ => dedup_tokens) body (keys d) d Hnd)
        as (d' & Hd' & Hk & Hg)
  end.
  - intros x st Hx Hkeys.
    destruct (@keys_eq_get_Some st d x Hkeys Hx) as [v Hv].
    unfold getitem. rewrite Hv. simpl.
    eexists; split; [reflexivity|].
    rewrite dedup_step_tokens.
    destruct (@setitem_update st x v (dedup_tokens v) Hv) as (H1 & H2 & H3).
    rewrite Hv in H2. rewrite ?Hv. simpl in *. auto.
  - exists d'. split; [assumption|]. split; [assumption|].
    intros k. rewrite Hg, mem_keys_get. destruct (get d k); reflexivity.
Qed.

(** ** [combine_sources] *)

Lemma concatenated_absent (b : source) (k v : str) :
  get b k = None -> concatenated b k v = v.
Proof.
  intros H. unfold concatenated. rewrite H. now destruct (mem k identity_keys).
Qed.

(** The first concatenation loop. *)
Lemma concat_loop1 (a b : source) :
  unique_keys a ->
  exists a1,
    for_state (keys a) (fun key source1 =>
      if mem key identity_keys then Return source1
      else if contains b key then
        v1 <- getitem source1 key ;;
        v2 <- getitem b key ;;
        Return (setitem source1 key (v1 ++ py " " ++ v2))
      else Return source1) a = Return a1 /\
    keys a1 = keys a /\
    forall k, get a1 k = option_map (concatenated b k) (get a k).
Proof.
  intros Hnd.
  match goal with
  | |- context [for_state (keys a) ?body a] =>
      destruct (@for_state_update (concatenated b) body (keys a) a Hnd)
        as (a1 & Ha1 & Hk & Hg)
  end.
  - intros x st Hx Hkeys.
    destruct (@keys_eq_get_Some st a x Hkeys Hx) as [v Hv].
    cbv beta. unfold concatenated, contains, getitem. rewrite !Hv.
    destruct (mem x identity_keys); [exists st; auto|].
    destruct (get b x) as [vb|]; [|exists st; auto]. simpl.
    eexists; split; [reflexivity|].
    destruct (@setitem_update st x v (v ++ py " " ++ vb) Hv) as (H1 & H2 & H3).
    rewrite Hv in H2. auto.
  - exists a1. split; [assumption|]. split; [assumption|].
    intros k. rewrite Hg, mem_keys_get. destruct (get a k); reflexivity.
Qed.

(** The second concatenation loop, started from any state of the first
    entry. *)
Lemma concat_loop2 (a1 b : source) :
  unique_keys b ->
  exists a2,
    for_state (keys b) (fun key source1 =>
      if mem key identity_keys then Return source1
      else if contains source1 key then
        v1 <- getitem source1 key ;;
        v2 <- getitem b key ;;
        Return (setitem source1 key (v1 ++ py " " ++ v2))
      else Return source1) a1 = Return a2 /\
    keys a2 = keys a1 /\
    forall k, get a2 k = option_map (concatenated b k) (get a1 k).
Proof.
  intros Hnd.
  match goal with
  | |- context [for_state (keys b) ?body a1] =>
      destruct (@for_state_update (concatenated b) body (keys b) a1 Hnd)
        as (a2 & Ha2 & Hk & Hg)
  end.
  - intros x st Hx Hkeys.
    destruct (keys_get_Some b x Hx) as [vb Hvb].
    cbv beta. unfold concatenated, contains, getitem. rewrite !Hvb.
    destruct (mem x identity_keys);
      [exists st; destruct (get st x); auto|].
    destruct (get st x) as [v|] eqn:Hv; [|exists st; rewrite Hv; auto].
    simpl. eexists; split; [reflexivity|].
    destruct (@setitem_update st x v (v ++ py " " ++ vb) Hv) as (H1 & H2 & H3).
    rewrite Hv in H2. auto.
  - exists a2. split; [assumption|]. split; [assumption|].
    intros k. rewrite Hg, mem_keys_get.
    destruct (get b k) eqn:Hb; [reflexivity|].
    destruct (get a1 k); simpl; [|reflexivity].
    now rewrite concatenated_absent.
Qed.

(** [combine_sources] never raises; it keeps the keys of both entries and
    rewrites their values as follows. *)
Lemma combine_sources_get (a b : source) :
  unique_keys a -> unique_keys b ->
  exists a' b',
    combine_sources a b = Return (a', b') /\
    keys a' = keys a /\ keys b' = keys b /\
    (forall k, get a' k =
       option_map (fun v =>
         dedup_tokens (concatenated b k (concatenated b k v))) (get a k)) /\
    (forall k, get b' k = option_map dedup_tokens (get b k)).
Proof.
  intros Ha Hb. unfold combine_sources.
  destruct (concat_loop1 b Ha) as (a1 & -> & Hk1 & Hg1). cbn [bind].
  destruct (concat_loop2 a1 Hb) as (a2 & -> & Hk2 & Hg2). cbn [bind].
  assert (Ha2 : unique_keys a2) by (unfold unique_keys in *; congruence).
  destruct (dedup_values_get Ha2) as (a3 & -> & Hk3 & Hg3). cbn [bind].
  destruct (dedup_values_get Hb) as (b' & -> & Hkb & Hgb). cbn [bind].
  exists a3, b'. split; [reflexivity|].
  split; [congruence|]. split; [assumption|]. split; [|assumption].
  intros k. rewrite Hg3, Hg2, Hg1. destruct (get a k); reflexivity.
Qed.

(** C5: after [combine_sources(a, b)], a field of [a] that is not one of
    the identity keys and is present in both entries holds the tokens of
    its original value followed by the tokens of [b]'s value, each kept at
    its first occurrence, joined by single spaces; merging
    [Suites: focal jammy] into [Suites: focal focal-updates] gives
    [focal focal-updates jammy]. *)
Theorem combine_sources_merges_tokens :
  (forall (a b : source) (k va vb : str),
     unique_keys a -> unique_keys b ->
     ~ In k identity_keys ->
     get a k = Some va -> get b k = Some vb ->
     exists a' b',
       combine_sources a b = Return (a', b') /\
       get a' k =
       Some (join (py " ") (first_occurrences (split va ++ split vb))))
  /\
  (exists a' b',
     combine_sources ex_suites_a ex_suites_b = Return (a', b') /\
     get a' (py "Suites") = Some (py "focal focal-updates jammy")).
Proof.
  assert (G : forall (a b : source) (k va vb : str),
     unique_keys a -> unique_keys b ->
     ~ In k identity_keys ->
     get a k = Some va -> get b k = Some vb ->
     exists a' b',
       combine_sources a b = Return (a', b') /\
       get a' k =
       Some (join (py " ") (first_occurrences (split va ++ split vb)))).
  { intros a b k va vb Ha Hb Hk Hva Hvb.
    destruct (combine_sources_get Ha Hb) as (a' & b' & Hc & _ & _ & Hg & _).
    exists a', b'. split; [assumption|].
    rewrite Hg, Hva. simpl. f_equal.
    unfold concatenated. rewrite Hvb.
    destruct (mem k identity_keys) eqn:M;
      [apply mem_In in M; contradiction|].
    unfold dedup_tokens.
    now rewrite !split_app_space, first_occurrences_app_twice. }
  split; [exact G|].
  destruct (@G ex_suites_a ex_suites_b (py "Suites")
              (py "focal focal-updates") (py "focal jammy"))
    as (a' & b' & Hc & Hg).
  - unfold unique_keys. repeat constructor; simpl; intuition discriminate.
  - unfold unique_keys. repeat constructor; simpl; intuition discriminate.
  - simpl. intuition discriminate.
  - reflexivity.
  - reflexivity.
  - exists a', b'. split; [assumption|]. exact Hg.
Qed.

(** Closed goals about the keys of a concrete entry. *)
Ltac solve_unique_keys :=
  unfold unique_keys; simpl; repeat constructor; simpl; intuition discriminate.

Ltac solve_not_in := simpl; intuition discriminate.

Lemma combine_sources_merges_tokens_witness :
  unique_keys ex_suites_a /\ unique_keys ex_suites_b /\
  ~ In (py "Suites") identity_keys /\
  exists a' b',
    combine_sources ex_suites_a ex_suites_b = Return (a', b') /\
    get a' (py "Suites") = Some (py "focal focal-updates jammy").
Proof.
  split; [solve_unique_keys|]. split; [solve_unique_keys|].
  split; [solve_not_in|].
  apply (proj1 combine_sources_merges_tokens ex_suites_a ex_suites_b
           (py "Suites") (py "focal focal-updates") (py "focal jammy"));
    [solve_unique_keys | solve_unique_keys | solve_not_in
    | reflexivity | reflexivity].
Defined.

(** C6, as stated, fails: merging [ex_ident_b] into [ex_ident_a] changes
    both the [X-Repolib-Ident] and the [X-Repolib-Name] field of the first
    entry. *)
Lemma combine_sources_changes_identity :
  In (py "X-Repolib-Ident") claimed_identity_keys /\
  In (py "X-Repolib-Name") claimed_identity_keys /\
  exists a' b',
    combine_sources ex_ident_a ex_ident_b = Return (a', b') /\
    get ex_ident_a (py "X-Repolib-Ident") = Some (py "mirror-a") /\
    get a' (py "X-Repolib-Ident") = Some (py "mirror-a mirror-b") /\
    get ex_ident_a (py "X-Repolib-Name")
    = Some (py "New York New Jersey mirror") /\
    get a' (py "X-Repolib-Name") = Some (py "New York Jersey mirror") /\
    get a' (py "X-Repolib-Ident") <> get ex_ident_a (py "X-Repolib-Ident") /\
    get a' (py "X-Repolib-Name") <> get ex_ident_a (py "X-Repolib-Name").
Proof.
  split; [simpl; tauto|]. split; [simpl; tauto|].
  eexists; eexists. split; [vm_compute; reflexivity|].
  repeat split; try reflexivity; vm_compute; discriminate.
Qed.

(** C6, amended: the two concatenation loops skip the keys
    [X-Repolib-Name], [X-Repolib-ID], [Enabled] and [Types], so whatever the
    second entry holds, each of them ends as the deduplicated tokens of its
    own original value, and unchanged when that value is already a list of
    distinct tokens separated by single spaces. *)
Theorem combine_sources_identity (a b : source) (k : str) :
  unique_keys a -> unique_keys b ->
  In k identity_keys ->
  exists a' b',
    combine_sources a b = Return (a', b') /\
    get a' k = option_map dedup_tokens (get a k) /\
    (forall v, get a k = Some v -> dedup_tokens v = v -> get a' k = Some v).
Proof.
  intros Ha Hb Hk.
  destruct (combine_sources_get Ha Hb) as (a' & b' & Hc & _ & _ & Hg & _).
  exists a', b'. split; [assumption|].
  assert (Hget : get a' k = option_map dedup_tokens (get a k)).
  { rewrite Hg. unfold concatenated.
    apply mem_In in Hk. rewrite Hk. reflexivity. }
  split; [assumption|].
  intros v Hv Hnorm. rewrite Hget, Hv. simpl. congruence.
Qed.

Lemma combine_sources_identity_witness :
  unique_keys ex_suites_a /\ unique_keys ex_suites_b /\
  In (py "X-Repolib-Name") identity_keys /\
  exists a' b',
    combine_sources ex_suites_a ex_suites_b = Return (a', b') /\
    get a' (py "X-Repolib-Name") = Some (py "Example").
Proof.
  split; [solve_unique_keys|]. split; [solve_unique_keys|].
  split; [simpl; tauto|].
  destruct (@combine_sources_identity ex_suites_a ex_suites_b
              (py "X-Repolib-Name"))
    as (a' & b' & Hc & Hg & _);
    [solve_unique_keys | solve_unique_keys | simpl; tauto |].
  exists a', b'. split; [exact Hc | exact Hg].
Defined.

(** ** [find_differences_sources]: what a differing field is mapped to *)

(** A field present in both entries with different values, and not
    excluded, is recorded once, with a blank in place of the first entry's
    value. *)
Lemma find_differences_sources_blank (a b : source) (E : list str)
  (k va vb : str) :
  ~ In k E -> get a k = Some va -> get b k = Some vb -> va <> vb ->
  exists d, find_differences_sources a b E = Return d /\
            unique_keys d /\ get d k = Some (py "", vb).
Proof.
  intros HE Hva Hvb Hne.
  assert (Hag : agree a b E k = false).
  { unfold agree. rewrite Hva, Hvb.
    destruct (mem k E) eqn:M; [apply mem_In in M; contradiction|].
    destruct (eqb_spec va vb); [contradiction | reflexivity]. }
  unfold find_differences_sources.
  match goal with
  | |- context [for_state (keys a) ?body []] =>
      destruct (@for_state_ind _ _ body
                  (fun _ (dk : diff) => unique_keys dk)
                  (keys a) []) as (d1 & -> & H1)
  end.
  { constructor. }
  { intros done key rest dk Hxs Hinv.
    assert (Hin : In key (keys a))
      by (rewrite Hxs; apply in_or_app; right; now left).
    destruct (@diff_body1 a b E key dk Hin) as (v1 & _ & Hbody).
    eexists; split; [exact Hbody|].
    destruct (agree a b E key); [assumption|].
    destruct (get b key); repeat apply unique_keys_setitem; assumption. }
  cbn [bind].
  match goal with
  | |- context [for_state (keys b) ?body d1] =>
      destruct (@for_state_ind _ _ body
                  (fun done (dk : diff) => unique_keys dk /\
                     (In k done -> get dk k = Some (py "", vb)))
                  (keys b) d1) as (d2 & -> & H2 & H3)
  end.
  { split; [assumption | intros []]. }
  { intros done key rest dk Hxs [Hu Hinv].
    assert (Hin : In key (keys b))
      by (rewrite Hxs; apply in_or_app; right; now left).
    destruct (@diff_body2 a b E key dk Hin) as (v2 & Hv2 & Hbody).
    eexists; split; [exact Hbody|].
    destruct (eqb_spec k key) as [<-|Hk].
    - rewrite Hag. split; [now apply unique_keys_setitem|].
      intros _. rewrite get_setitem_same. congruence.
    - assert (Hold : In k (done ++ [key]) -> get dk k = Some (py "", vb)).
      { intros [H|[H|[]]]%in_app_or; [auto | congruence]. }
      destruct (agree a b E key).
      + split; assumption.
      + split; [now apply unique_keys_setitem|].
        intros H. rewrite get_setitem_other by assumption. auto. }
  cbn [bind]. exists d2. split; [reflexivity|]. split; [assumption|].
  apply H3. eapply get_Some_keys; eassumption.
Qed.

(** C3 on the code: a field that is not excluded and differs between the
    two entries is recorded exactly once, but paired as (blank, value in the
    second entry), not as the pair of both values; for [Suites], [focal] in
    the first entry and [jammy] in the second, the difference found is
    (blank, [jammy]). *)
Theorem find_differences_sources_differing_field :
  (forall (a b : source) (E : list str) (k va vb : str),
     ~ In k E -> get a k = Some va -> get b k = Some vb -> va <> vb ->
     exists d, find_differences_sources a b E = Return d /\
               unique_keys d /\ get d k = Some (py "", vb))
  /\
  find_differences_sources ex_focal ex_jammy []
  = Return [(py "Suites", (py "", py "jammy"))].
Proof.
  split.
  - intros a b E k va vb. apply find_differences_sources_blank.
  - reflexivity.
Qed.

Lemma find_differences_sources_differing_field_witness :
  ~ In (py "Suites") [] /\ py "focal" <> py "jammy" /\
  exists d, find_differences_sources ex_focal ex_jammy [] = Return d /\
            unique_keys d /\ get d (py "Suites") = Some (py "", py "jammy").
Proof.
  split; [intros []|]. split; [discriminate|].
  apply (proj1 find_differences_sources_differing_field
           ex_focal ex_jammy [] (py "Suites") (py "focal") (py "jammy"));
    [intros [] | reflexivity | reflexivity | discriminate].
Defined.

(** ** [url_validator] *)

Lemma truthy_false (s : str) : truthy s = false <-> s = [].
Proof. destruct s; simpl; split; congruence. Qed.

Lemma truthy_true (s : str) : truthy s = true <-> s <> [].
Proof. destruct s; simpl; split; congruence. Qed.

(** The value [url_validator] returns, read off the result of the parse. *)
Lemma url_validator_eq (urlparse : str -> outcome ParseResult) (url : str) :
  url_validator urlparse url =
  Return match urlparse url with
         | Raise _ => false
         | Return r =>
             truthy (scheme r)
             && negb (eqb (scheme r) (py "x-repolib-name"))
             && (truthy (netloc r) || truthy (path r))
         end.
Proof.
  unfold url_validator. destruct (urlparse url) as [r|e]; [|reflexivity].
  cbn [bind]. destruct (scheme r) as [|c sch] eqn:Hs; [reflexivity|].
  cbn [truthy negb].
  destruct (eqb (c :: sch) (py "x-repolib-name")); [reflexivity|].
  destruct (netloc r) as [|d n]; [|reflexivity].
  destruct (path r); reflexivity.
Qed.

(** C8: [url_validator] never raises; it returns [False] when the parse
    fails, when the scheme is empty and when the scheme is
    [x-repolib-name]; otherwise [True] when there is a network location,
    or else a path, and [False] when there is neither. *)
Theorem url_validator_spec :
  (forall (urlparse : str -> outcome ParseResult) (url : str),
     (exists ok, url_validator urlparse url = Return ok) /\
     (forall e, urlparse url = Raise e ->
                url_validator urlparse url = Return false) /\
     (forall r, urlparse url = Return r ->
        (scheme r = [] -> url_validator urlparse url = Return false) /\
        (scheme r = py "x-repolib-name" ->
         url_validator urlparse url = Return false) /\
        (scheme r <> [] -> scheme r <> py "x-repolib-name" ->
         netloc r <> [] -> url_validator urlparse url = Return true) /\
        (scheme r <> [] -> scheme r <> py "x-repolib-name" ->
         netloc r = [] -> path r <> [] ->
         url_validator urlparse url = Return true) /\
        (scheme r <> [] -> scheme r <> py "x-repolib-name" ->
         netloc r = [] -> path r = [] ->
         url_validator urlparse url = Return false)))
  /\
  (forall host_ok nfkc_ok : str -> bool,
     url_validator (Urllib.urlparse host_ok nfkc_ok)
       (py "https://example.com/repo") = Return true /\
     url_validator (Urllib.urlparse host_ok nfkc_ok)
       (py "file:///srv/repo") = Return true /\
     url_validator (Urllib.urlparse host_ok nfkc_ok)
       (py "not-a-url") = Return false /\
     url_validator (Urllib.urlparse host_ok nfkc_ok)
       (py "") = Return false).
Proof.
  split.
  - intros urlparse url. rewrite url_validator_eq.
    split; [eexists; reflexivity|].
    split; [intros e ->; reflexivity|].
    intros r ->.
    assert (Hsent : forall s, s <> py "x-repolib-name" ->
                      eqb s (py "x-repolib-name") = false)
      by (intros s Hs; destruct (eqb_spec s (py "x-repolib-name"));
          [contradiction | reflexivity]).
    repeat split.
    + intros ->. reflexivity.
    + intros ->. rewrite eqb_refl, andb_false_r. reflexivity.
    + intros H1 H2 H3. apply truthy_true in H1, H3.
      now rewrite H1, H3, (Hsent _ H2).
    + intros H1 H2 H3 H4. apply truthy_true in H1, H4.
      now rewrite H1, H4, (Hsent _ H2), orb_true_r.
    + intros H1 H2 -> ->. now rewrite andb_false_r.
  - intros host_ok nfkc_ok. repeat split; reflexivity.
Qed.

Lemma url_validator_spec_witness :
  url_validator urlparse_strict (py "x-repolib-name://example") = Return false
  /\ url_validator urlparse_strict (py "ftp://example.com") = Return true
  /\ url_validator urlparse_strict (py "http://[") = Return false.
Proof.
  split; [|split].
  - refine (proj1 (proj2 (proj2 (proj2 (proj1 url_validator_spec
              urlparse_strict (py "x-repolib-name://example")))
              (mkParseResult (py "x-repolib-name") (py "example")
                 [] [] [] []) _)) _);
      reflexivity.
  - refine (proj1 (proj2 (proj2 (proj2 (proj2 (proj1 url_validator_spec
              urlparse_strict (py "ftp://example.com")))
              (mkParseResult (py "ftp") (py "example.com")
                 [] [] [] []) _))) _ _ _);
      [reflexivity | discriminate | discriminate | discriminate].
  - refine (proj1 (proj2 (proj1 url_validator_spec
              urlparse_strict (py "http://["))) ValueError _).
    reflexivity.
Defined.

(** ** [validate_debline] *)

Lemma startswith_ppa_not_deb (v : str) :
  startswith (py "ppa:") v = true -> startswith (py "deb") v = false.
Proof.
  destruct v as [|c v]; [discriminate|].
  change (py "ppa:") with (112%N :: py "pa:").
  change (py "deb") with (100%N :: py "eb").
  cbn [startswith]. destruct (N.eqb_spec 112 c) as [<-|]; [|discriminate].
  reflexivity.
Qed.

(** The loop over the words of a [deb] line. *)
Lemma words_loop (urlparse : str -> outcome ParseResult) (words : list str) :
  exists r,
    for_return words (fun word =>
      ok <- url_validator urlparse word ;;
      if ok then Return (Some true) else Return None) = Return r /\
    (r = Some true \/ r = None) /\
    (r = Some true <->
     exists w, In w words /\ url_validator urlparse w = Return true).
Proof.
  induction words as [|w words (r & Hr & Hcases & Hiff)].
  - exists None. split; [reflexivity|]. split; [now right|].
    split; [discriminate | intros (w & [] & _)].
  - cbn [for_return]. rewrite (url_validator_eq urlparse w). cbn [bind].
    match goal with
    | |- context [if ?b then _ else _] => destruct b eqn:Hw
    end; cbn [bind].
    + exists (Some true). split; [reflexivity|]. split; [now left|].
      split; [|reflexivity]. intros _. exists w.
      split; [now left|]. rewrite url_validator_eq. now rewrite Hw.
    + exists r. split; [exact Hr|]. split; [assumption|].
      rewrite Hiff. split.
      * intros (w' & Hin & Hv). exists w'. split; [now right | assumption].
      * intros (w' & [<-|Hin] & Hv).
        -- rewrite url_validator_eq, Hw in Hv. discriminate.
        -- exists w'. now split.
Qed.

(** C7, as stated, fails: on a [deb] line without a URL the function runs
    off its end and hands back [None], which is not a boolean. *)
Lemma validate_debline_returns_none :
  validate_debline urlparse_strict (py "deb onlytext") = Return PyNone /\
  (forall b, validate_debline urlparse_strict (py "deb onlytext")
             <> Return (PyBool b)) /\
  validate_debline urlparse_strict (py "ppa:owner") = Return PyNone.
Proof.
  split; [reflexivity|]. split; [|reflexivity].
  intros b. vm_compute. discriminate.
Qed.

(** C7, amended: [validate_debline] never raises and returns [True],
    [False] or [None].  With [v] the line after comment stripping: when [v]
    starts with [deb] it returns [True] if some word of [v] passes
    [url_validator] and [None] otherwise; when [v] starts with [ppa:] it
    returns [True] if [v] contains a slash and [None] otherwise; any other
    line gives [False] when it ends with [.flatpakrepo], the result of
    [url_validator] on [v] when [v] is a single word, and [False]
    otherwise. *)
Theorem validate_debline_spec :
  (forall (urlparse : str -> outcome ParseResult) (line : str),
     let v := uncomment line in
     let result := validate_debline urlparse line in
     (startswith (py "deb") v = true ->
        (result = Return (PyBool true) \/ result = Return PyNone) /\
        (result = Return (PyBool true) <->
         exists w, In w (split v) /\ url_validator urlparse w = Return true))
     /\
     (startswith (py "ppa:") v = true ->
        (result = Return (PyBool true) \/ result = Return PyNone) /\
        (result = Return (PyBool true) <-> has_char (chr "/") v = true))
     /\
     (startswith (py "deb") v = false -> startswith (py "ppa:") v = false ->
        (endswith (py ".flatpakrepo") v = true ->
           result = Return (PyBool false)) /\
        (endswith (py ".flatpakrepo") v = false ->
         length (split v) = 1 ->
           exists ok, url_validator urlparse v = Return ok /\
                      result = Return (PyBool ok)) /\
        (endswith (py ".flatpakrepo") v = false ->
         length (split v) <> 1 ->
           result = Return (PyBool false))))
  /\
  (forall host_ok nfkc_ok : str -> bool,
     validate_debline (Urllib.urlparse host_ok nfkc_ok)
       (py "deb https://example.com/ubuntu focal main")
     = Return (PyBool true) /\
     validate_debline (Urllib.urlparse host_ok nfkc_ok)
       (py "# deb https://example.com/ubuntu focal main")
     = Return (PyBool true) /\
     validate_debline (Urllib.urlparse host_ok nfkc_ok)
       (py "deb onlytext")
     = Return PyNone /\
     validate_debline (Urllib.urlparse host_ok nfkc_ok)
       (py "something.flatpakrepo")
     = Return (PyBool false)).
Proof.
  split.
  - intros urlparse line v result. subst result. unfold validate_debline.
    fold v. split; [|split].
    + intros Hdeb. rewrite Hdeb.
      destruct (words_loop urlparse (split v)) as (r & -> & Hcases & Hiff).
      cbn [bind]. rewrite <- Hiff.
      destruct Hcases as [-> | ->].
      * split; [now left|]. tauto.
      * split; [now right|]. split; discriminate.
    + intros Hppa. rewrite (startswith_ppa_not_deb v Hppa), Hppa.
      destruct (has_char (chr "/") v).
      * split; [now left|]. tauto.
      * split; [now right|]. split; discriminate.
    + intros Hdeb Hppa. rewrite Hdeb, Hppa. split; [|split].
      * intros ->. reflexivity.
      * intros -> Hlen. rewrite Hlen. cbn [Nat.eqb].
        rewrite url_validator_eq. cbn [bind]. eexists. split; reflexivity.
      * intros -> Hlen. apply Nat.eqb_neq in Hlen. now rewrite Hlen.
  - intros host_ok nfkc_ok. repeat split; reflexivity.
Qed.

Lemma validate_debline_spec_witness :
  validate_debline urlparse_strict (py "ppa:owner/name")
  = Return (PyBool true)
  /\ validate_debline urlparse_strict (py "http://example.com/x.flatpakrepo")
     = Return (PyBool false)
  /\ validate_debline urlparse_strict (py "one two") = Return (PyBool false).
Proof.
  split; [|split].
  - apply (proj2 (proj1 (proj2 (proj1 validate_debline_spec urlparse_strict
                                   (py "ppa:owner/name"))) eq_refl)).
    reflexivity.
  - apply (proj1 (proj2 (proj2 (proj1 validate_debline_spec urlparse_strict
                    (py "http://example.com/x.flatpakrepo")))
                    eq_refl eq_refl)).
    reflexivity.
  - apply (proj2 (proj2 (proj2 (proj2 (proj1 validate_debline_spec
                    urlparse_strict (py "one two")))
                    eq_refl eq_refl))).
    + reflexivity.
    + simpl. discriminate.
Defined.

(** ** [fetch_key] *)

(** When the request fails with [URLError] (or a subclass), the handler
    sets [req] to [None] and the [read] that follows raises
    [AttributeError]. *)
Lemma fetch_key_network_failure (response : Type)
  (urlopen : str -> outcome response) (read : response -> outcome str)
  (fingerprint query_url : str) (e : exn) :
  urlopen (query_url ++ fingerprint) = Raise e ->
  is_URLError e = true ->
  fetch_key urlopen read fingerprint query_url = Raise AttributeError.
Proof.
  intros He Hcls. unfold fetch_key. rewrite He. cbn [bind try_except_cls].
  rewrite Hcls. reflexivity.
Qed.

(** C9 on the code: when the request fails with [URLError], the error is
    caught, but [fetch_key] then raises [AttributeError] to its caller; so
    it does on a network where every request fails. *)
Theorem fetch_key_unreachable_raises :
  (forall (response : Type) (urlopen : str -> outcome response)
          (read : response -> outcome str) (fingerprint query_url : str)
          (e : exn),
     urlopen (query_url ++ fingerprint) = Raise e ->
     is_URLError e = true ->
     fetch_key urlopen read fingerprint query_url = Raise AttributeError)
  /\
  fetch_key urlopen_unreachable (fun r => Return r)
    (py "8BAF9A6F") KEYSERVER_QUERY_URL
  = Raise AttributeError.
Proof.
  split.
  - intros response urlopen read fingerprint query_url e.
    apply fetch_key_network_failure.
  - reflexivity.
Qed.

Lemma fetch_key_unreachable_raises_witness :
  is_URLError HTTPError = true /\
  fetch_key (fun _ : str => @Raise str HTTPError) (fun r => Return r)
    (py "8BAF9A6F") KEYSERVER_QUERY_URL
  = Raise AttributeError.
Proof.
  split; [reflexivity|].
  apply (proj1 fetch_key_unreachable_raises str
           (fun _ : str => @Raise str HTTPError) (fun r => Return r)
           (py "8BAF9A6F") KEYSERVER_QUERY_URL HTTPError);
    reflexivity.
Defined.

(** ** [strip_hashes] *)

Lemma lstrip_by_length (p : char -> bool) (s : str) :
  length (lstrip_by p s) <= length s.
Proof.
  induction s as [|c s IH]; simpl; [lia|].
  destruct (p c); simpl; lia.
Qed.

Lemma rstrip_by_length (p : char -> bool) (s : str) :
  length (rstrip_by p s) <= length s.
Proof.
  induction s as [|c s IH]; simpl; [lia|].
  destruct (rstrip_by p s); [destruct (p c)|]; simpl in *; lia.
Qed.

Lemma lstrip_by_snoc (p : char -> bool) (l : str) (c : char) :
  lstrip_by p (l ++ [c]) =
  match lstrip_by p l with
  | [] => if p c then [] else [c]
  | r => r ++ [c]
  end.
Proof.
  induction l as [|d l IH]; simpl; [reflexivity|].
  destruct (p d); [exact IH | reflexivity].
Qed.

(** Stripping on the right is stripping on the left of the reversed
    string. *)
Lemma rstrip_by_rev (p : char -> bool) (s : str) :
  rstrip_by p s = rev (lstrip_by p (rev s)).
Proof.
  induction s as [|c s IH]; simpl; [reflexivity|].
  rewrite lstrip_by_snoc, IH.
  destruct (lstrip_by p (rev s)) as [|x r]; simpl.
  - destruct (p c); reflexivity.
  - rewrite rev_app_distr. simpl.
    destruct (rev r ++ [x]) eqn:E; [|reflexivity].
    destruct (rev r); discriminate.
Qed.

(** What is left after [lstrip] does not begin with a stripped
    character. *)
Lemma lstrip_by_head (p : char -> bool) (s : str) (c : char) (r : str) :
  lstrip_by p s = c :: r -> p c = false.
Proof.
  induction s as [|d s IH]; simpl; [discriminate|].
  destruct (p d) eqn:Hd; [exact IH|]. intros [= <- _]. exact Hd.
Qed.

(** [rstrip] keeps the first character of what it does not erase. *)
Lemma rstrip_by_head (p : char -> bool) (s : str) (c : char) (r : str) :
  rstrip_by p s = c :: r -> exists s', s = c :: s'.
Proof.
  destruct s as [|d s]; simpl; [discriminate|].
  destruct (rstrip_by p s); [destruct (p d); [discriminate|]|];
    intros [= <- _]; now exists s.
Qed.

Lemma rstrip_by_keeps (p : char -> bool) (c : char) (s : str) :
  p c = false -> exists r, rstrip_by p (c :: s) = c :: r.
Proof.
  intros Hc. simpl. destruct (rstrip_by p s) as [|d r].
  - rewrite Hc. now exists [].
  - now exists (d :: r).
Qed.

Lemma rstrip_by_last (p : char -> bool) (s r : str) (c : char) :
  rstrip_by p s = r ++ [c] -> p c = false.
Proof.
  revert r. induction s as [|d s IH]; intros r; simpl.
  - destruct r; discriminate.
  - destruct (rstrip_by p s) as [|e t] eqn:E.
    + destruct (p d) eqn:Hd; [destruct r; discriminate|].
      destruct r as [|x [|y r]]; simpl; intros [= <-]; try assumption.
    + destruct r as [|x r]; simpl; [discriminate|].
      intros [= _ H]. exact (IH r H).
Qed.

Lemma strip_by_head (p : char -> bool) (s : str) (c : char) (r : str) :
  strip_by p s = c :: r -> p c = false.
Proof.
  unfold strip_by. intros H.
  destruct (@rstrip_by_head _ _ _ _ H) as [s' Hs'].
  exact (@lstrip_by_head _ _ _ _ Hs').
Qed.

Lemma strip_by_length (p : char -> bool) (s : str) :
  length (strip_by p s) <= length s.
Proof.
  unfold strip_by.
  pose proof (rstrip_by_length p (lstrip_by p s)).
  pose proof (lstrip_by_length p s). lia.
Qed.

Lemma strip_no_outer_space (s : str) : no_outer_space (strip s).
Proof.
  split.
  - intros c r H. exact (@strip_by_head _ _ _ _ H).
  - intros c r H. exact (@rstrip_by_last _ _ _ _ H).
Qed.

Lemma startswith_hash (s : str) :
  startswith (py "#") s = true -> exists r, s = chr "#" :: r.
Proof.
  destruct s as [|c s]; [discriminate|].
  change (py "#") with [chr "#"]. cbn [startswith].
  destruct (N.eqb_spec (chr "#") c) as [<-|]; [|discriminate].
  intros _. now exists s.
Qed.

(** An iteration that does not reach the [break] shortens the line. *)
Lemma strip_hashes_decreases (line : str) :
  startswith (py "#") (strip (strip_chars (py "#") line)) = true ->
  length (strip (strip_chars (py "#") line)) < length line.
Proof.
  intros Hh. destruct (startswith_hash _ Hh) as [r Hr].
  pose proof (strip_by_length (fun c => has_char c (py "#")) line) as Hlen.
  fold (strip_chars (py "#") line) in Hlen.
  remember (strip_chars (py "#") line) as l1 eqn:El1.
  destruct l1 as [|c l1]; [discriminate|].
  assert (Hc : N.eqb c (chr "#") = false).
  { symmetry in El1. apply strip_by_head in El1.
    cbn in El1. now rewrite orb_false_r in El1. }
  unfold strip, strip_by in *. cbn [lstrip_by] in *.
  destruct (isspace c) eqn:Hsp.
  - pose proof (rstrip_by_length isspace (lstrip_by isspace l1)).
    pose proof (lstrip_by_length isspace l1). simpl in Hlen. lia.
  - destruct (@rstrip_by_keeps isspace c l1 Hsp) as [r' Hr'].
    rewrite Hr' in Hr. injection Hr as -> _.
    rewrite N.eqb_refl in Hc. discriminate.
Qed.

Lemma strip_hashes_loop_total (fuel : nat) (line : str) :
  length line < fuel ->
  exists r, strip_hashes_loop fuel line = Some r /\
            startswith (py "#") r = false /\ no_outer_space r.
Proof.
  revert line. induction fuel as [|fuel IH]; intros line Hlen; [lia|].
  cbn [strip_hashes_loop].
  destruct (startswith (py "#") (strip (strip_chars (py "#") line))) eqn:Hh;
    cbn [negb].
  - apply IH. pose proof (strip_hashes_decreases line Hh). lia.
  - eexists. split; [reflexivity|]. split; [assumption|].
    apply strip_no_outer_space.
Qed.

Lemma strip_hashes_loop_mono (n m : nat) (line r : str) :
  strip_hashes_loop n line = Some r -> n <= m ->
  strip_hashes_loop m line = Some r.
Proof.
  revert m line. induction n as [|n IH]; intros m line; [discriminate|].
  destruct m as [|m]; [lia|]. cbn [strip_hashes_loop].
  destruct (negb (startswith (py "#") (strip (strip_chars (py "#") line)))).
  - auto.
  - intros H Hle. apply IH; [assumption | lia].
Qed.

(** C10: the loop of [strip_hashes] reaches its [break] after at most
    [length line + 1] iterations, and the line it returns does not start
    with a hash and has neither leading nor trailing whitespace. *)
Theorem strip_hashes_terminates (line : str) :
  exists r,
    strip_hashes line = Some r /\
    (forall fuel, length line < fuel -> strip_hashes_loop fuel line = Some r) /\
    startswith (py "#") r = false /\
    no_outer_space r.
Proof.
  unfold strip_hashes.
  destruct (@strip_hashes_loop_total (S (length line)) line) as (r & Hr & Hpost);
    [lia|].
  exists r. split; [assumption|]. split; [|assumption].
  intros fuel Hfuel.
  apply (@strip_hashes_loop_mono (S (length line)) fuel line r Hr). lia.
Qed.

Lemma strip_hashes_terminates_witness :
  strip_hashes_loop 12 (py "## # a b# ") = Some (py "a b").
Proof.
  destruct (strip_hashes_terminates (py "## # a b# ")) as (r & Hr & Hfuel & _).
  rewrite (Hfuel 12); [|simpl; lia].
  rewrite <- Hr. reflexivity.
Defined.

(** * Further properties of the code *)

(** ** [compare_sources] as an equivalence *)

Lemma compare_sources_true_iff (a b : source) (E : list str) :
  compare_sources a b E = Return true <->
  (forall k, In k (keys a) \/ In k (keys b) -> agree a b E k = true).
Proof.
  rewrite compare_sources_eq. split.
  - intros [= H]. apply andb_true_iff in H. destruct H as [Ha Hb].
    rewrite forallb_forall in Ha, Hb. intros k [Hk|Hk]; auto.
  - intros H. f_equal. apply andb_true_iff.
    split; apply forallb_forall; intros k Hk; apply H; tauto.
Qed.

(** X1: an entry compares equal to itself, whatever is excluded. *)
Theorem compare_sources_refl (a : source) (E : list str) :
  compare_sources a a E = Return true.
Proof.
  apply compare_sources_true_iff. intros k Hk.
  apply agree_true_iff. right.
  destruct (keys_get_Some a k) as [v Hv]; [tauto|]. now exists v.
Qed.

(** X2: the comparison is transitive under a fixed exclusion list. *)
Theorem compare_sources_trans (a b c : source) (E : list str) :
  compare_sources a b E = Return true ->
  compare_sources b c E = Return true ->
  compare_sources a c E = Return true.
Proof.
  rewrite !compare_sources_true_iff. intros Hab Hbc k Hk.
  apply agree_true_iff.
  destruct (in_dec (list_eq_dec N.eq_dec) k E) as [HE|HE]; [now left|].
  right. destruct Hk as [Hk|Hk].
  - specialize (Hab k (or_introl Hk)). apply agree_true_iff in Hab.
    destruct Hab as [?|(v & Ha & Hb)]; [contradiction|].
    specialize (Hbc k (or_introl (get_Some_keys _ _ Hb))).
    apply agree_true_iff in Hbc.
    destruct Hbc as [?|(w & Hb' & Hc)]; [contradiction|].
    exists v. split; congruence.
  - specialize (Hbc k (or_intror Hk)). apply agree_true_iff in Hbc.
    destruct Hbc as [?|(v & Hb & Hc)]; [contradiction|].
    specialize (Hab k (or_intror (get_Some_keys _ _ Hb))).
    apply agree_true_iff in Hab.
    destruct Hab as [?|(w & Ha & Hb')]; [contradiction|].
    exists v. split; congruence.
Qed.

Lemma compare_sources_trans_witness :
  compare_sources ex_focal ex_focal_renamed [py "X-Repolib-Name"]
  = Return true /\
  compare_sources ex_focal_renamed ex_focal [py "X-Repolib-Name"]
  = Return true /\
  compare_sources ex_focal ex_focal [py "X-Repolib-Name"] = Return true.
Proof.
  split; [reflexivity|]. split; [reflexivity|].
  apply (@compare_sources_trans ex_focal ex_focal_renamed ex_focal
           [py "X-Repolib-Name"]); reflexivity.
Defined.

(** X3: excluding more keys never turns equal entries into unequal ones,
    and entries all of whose keys are excluded compare equal. *)
Theorem compare_sources_exclude_more (a b : source) (E E' : list str) :
  (forall k, In k E -> In k E') ->
  (compare_sources a b E = Return true ->
   compare_sources a b E' = Return true) /\
  ((forall k, In k (keys a) \/ In k (keys b) -> In k E') ->
   compare_sources a b E' = Return true).
Proof.
  intros Hsub. rewrite !compare_sources_true_iff. split.
  - intros H k Hk. apply agree_true_iff.
    destruct (proj1 (agree_true_iff a b E k) (H k Hk)) as [HE|Hv];
      [left; auto | now right].
  - intros H k Hk. apply agree_true_iff. left. auto.
Qed.

Lemma compare_sources_exclude_more_witness :
  compare_sources ex_focal ex_jammy [py "Suites"; py "X-Repolib-Name"]
  = Return true.
Proof.
  apply (proj2 (@compare_sources_exclude_more ex_focal ex_jammy
                  [] [py "Suites"; py "X-Repolib-Name"]
                  (fun k (H : In k []) => match H with end))).
  intros k [Hk|Hk]; simpl in Hk; simpl; tauto.
Defined.

(** ** What [find_differences_sources] records *)

Lemma find_differences_sources_get (a b : source) (E : list str) :
  exists d, find_differences_sources a b E = Return d /\
    unique_keys d /\
    forall k, get d k =
      if agree a b E k then None
      else match get b k with
           | Some vb => Some (py "", vb)
           | None => option_map (fun va => (va, py "")) (get a k)
           end.
Proof.
  unfold find_differences_sources.
  match goal with
  | |- context [for_state (keys a) ?body []] =>
      destruct (@for_state_ind _ _ body
                  (fun done (dk : diff) => unique_keys dk /\
                     forall k, get dk k =
                       if mem k done && negb (agree a b E k)
                       then option_map (fun va => (va, py "")) (get a k)
                       else None)
                  (keys a) []) as (d1 & -> & Hu1 & H1)
  end.
  { split; [constructor | reflexivity]. }
  { intros done x rest dk Hxs [Hu Hinv].
    assert (Hin : In x (keys a))
      by (rewrite Hxs; apply in_or_app; right; now left).
    destruct (@diff_body1 a b E x dk Hin) as (v1 & Hv1 & Hbody).
    eexists; split; [exact Hbody|].
    destruct (agree a b E x) eqn:Hag.
    - split; [assumption|]. intros k. rewrite Hinv, mem_snoc.
      destruct (eqb_spec k x) as [->|Hk].
      + now rewrite Hag, !andb_false_r.
      + now rewrite orb_false_r.
    - split; [destruct (get b x); repeat apply unique_keys_setitem;
              assumption|].
      intros k. rewrite mem_snoc.
      destruct (eqb_spec k x) as [->|Hk].
      + rewrite Hag, orb_true_r, Hv1. simpl.
        destruct (get b x); apply get_setitem_same.
      + rewrite orb_false_r, <- Hinv.
        destruct (get b x); rewrite !get_setitem_other by assumption;
          reflexivity. }
  cbn [bind].
  match goal with
  | |- context [for_state (keys b) ?body d1] =>
      destruct (@for_state_ind _ _ body
                  (fun done (dk : diff) => unique_keys dk /\
                     forall k, get dk k =
                       if mem k done && negb (agree a b E k)
                       then option_map (fun vb => (py "", vb)) (get b k)
                       else get d1 k)
                  (keys b) d1) as (d2 & -> & Hu2 & H2)
  end.
  { split; [assumption | reflexivity]. }
  { intros done x rest dk Hxs [Hu Hinv].
    assert (Hin : In x (keys b))
      by (rewrite Hxs; apply in_or_app; right; now left).
    destruct (@diff_body2 a b E x dk Hin) as (v2 & Hv2 & Hbody).
    eexists; split; [exact Hbody|].
    destruct (agree a b E x) eqn:Hag.
    - split; [assumption|]. intros k. rewrite Hinv, mem_snoc.
      destruct (eqb_spec k x) as [->|Hk].
      + now rewrite Hag, !andb_false_r.
      + now rewrite orb_false_r.
    - split; [now apply unique_keys_setitem|].
      intros k. rewrite mem_snoc.
      destruct (eqb_spec k x) as [->|Hk].
      + rewrite Hag, orb_true_r, Hv2. simpl. apply get_setitem_same.
      + rewrite orb_false_r, <- Hinv. now apply get_setitem_other. }
  cbn [bind]. exists d2. split; [reflexivity|]. split; [assumption|].
  intros k. rewrite H2, H1, !mem_keys_get.
  destruct (agree a b E k); [now rewrite !andb_false_r|].
  rewrite !andb_true_r.
  destruct (get b k); [reflexivity|]. destruct (get a k); reflexivity.
Qed.

Lemma agree_false_iff (a b : source) (E : list str) (k : str) :
  agree a b E k = false <->
  ~ In k E /\ ~ (exists v, get a k = Some v /\ get b k = Some v).
Proof.
  pose proof (agree_true_iff a b E k) as H.
  destruct (agree a b E k); split; intros H'.
  - discriminate.
  - exfalso. destruct H as [H _]. destruct (H eq_refl); tauto.
  - split; intros H''; [assert (true = false) | assert (true = false)];
      try discriminate;
      symmetry; apply H; tauto.
  - reflexivity.
Qed.

(** X4: the keys of the dictionary [find_differences_sources] returns are
    exactly the fields, not excluded, of either entry on which the two
    entries do not hold the same value; each of them occurs once. *)
Theorem find_differences_sources_keys (a b : source) (E : list str) :
  exists d, find_differences_sources a b E = Return d /\
    unique_keys d /\
    forall k, In k (keys d) <->
      ~ In k E /\ (In k (keys a) \/ In k (keys b)) /\
      ~ (exists v, get a k = Some v /\ get b k = Some v).
Proof.
  destruct (find_differences_sources_get a b E) as (d & Hd & Hu & Hg).
  exists d. split; [assumption|]. split; [assumption|].
  intros k. split.
  - intros Hin. destruct (keys_get_Some d k Hin) as [p Hp].
    rewrite Hg in Hp.
    destruct (agree a b E k) eqn:Hag; [discriminate|].
    apply agree_false_iff in Hag. destruct Hag as [HE Hne].
    split; [assumption|]. split; [|assumption].
    destruct (get b k) eqn:Hb; [right; eapply get_Some_keys; eassumption|].
    destruct (get a k) eqn:Ha; [left; eapply get_Some_keys; eassumption|].
    discriminate.
  - intros (HE & Hk & Hne).
    assert (Hag : agree a b E k = false) by (apply agree_false_iff; tauto).
    specialize (Hg k). rewrite Hag in Hg.
    destruct (get b k) eqn:Hb; [eapply get_Some_keys; eassumption|].
    destruct (get a k) eqn:Ha; [eapply get_Some_keys; eassumption|].
    exfalso. destruct Hk as [Hk|Hk];
      [apply get_None_keys in Ha | apply get_None_keys in Hb]; contradiction.
Qed.

(** X5: a field, not excluded, that only the first entry has is recorded
    with a blank second component, and a field that only the second entry
    has with a blank first component. *)
Theorem find_differences_sources_one_sided (a b : source) (E : list str) :
  exists d, find_differences_sources a b E = Return d /\
    (forall k va, ~ In k E -> get a k = Some va -> get b k = None ->
                  get d k = Some (va, py "")) /\
    (forall k vb, ~ In k E -> get a k = None -> get b k = Some vb ->
                  get d k = Some (py "", vb)).
Proof.
  destruct (find_differences_sources_get a b E) as (d & Hd & _ & Hg).
  exists d. split; [assumption|]. split.
  - intros k va HE Ha Hb.
    assert (Hag : agree a b E k = false).
    { apply agree_false_iff. split; [assumption|].
      intros (v & _ & Hv). congruence. }
    now rewrite Hg, Hag, Hb, Ha.
  - intros k vb HE Ha Hb.
    assert (Hag : agree a b E k = false).
    { apply agree_false_iff. split; [assumption|].
      intros (v & Hv & _). congruence. }
    now rewrite Hg, Hag, Hb.
Qed.

Lemma find_differences_sources_one_sided_witness :
  exists d, find_differences_sources ex_focal [] [py "X-Repolib-Name"]
            = Return d /\
            get d (py "Suites") = Some (py "focal", py "").
Proof.
  destruct (find_differences_sources_one_sided ex_focal []
              [py "X-Repolib-Name"]) as (d & Hd & Hleft & _).
  exists d. split; [exact Hd|].
  apply Hleft; [simpl; intuition discriminate | reflexivity | reflexivity].
Defined.

(** ** The values [combine_sources] leaves behind *)

Lemma split_from_tokens (s tok : str) :
  forallb (fun c => negb (isspace c)) tok = true ->
  Forall (fun t => is_token t = true) (split_from tok s).
Proof.
  revert tok. induction s as [|c s IH]; intros tok Htok; simpl.
  - destruct tok; constructor; [|constructor].
    unfold is_token. now rewrite Htok.
  - destruct (isspace c) eqn:Hc.
    + apply Forall_app. split; [|now apply IH].
      destruct tok; constructor; [|constructor].
      unfold is_token. now rewrite Htok.
    + apply IH. rewrite forallb_app, Htok. simpl. now rewrite Hc.
Qed.

Lemma split_tokens (s : str) : Forall (fun t => is_token t = true) (split s).
Proof. now apply split_from_tokens. Qed.

Lemma split_from_nospace (t tok s : str) :
  forallb (fun c => negb (isspace c)) t = true ->
  split_from tok (t ++ s) = split_from (tok ++ t) s.
Proof.
  revert tok. induction t as [|c t IH]; intros tok Ht; simpl.
  - now rewrite app_nil_r.
  - simpl in Ht. apply andb_true_iff in Ht. destruct Ht as [Hc Ht].
    apply negb_true_iff in Hc. rewrite Hc, (IH _ Ht), <- app_assoc.
    reflexivity.
Qed.

Lemma split_token (t : str) : is_token t = true -> split t = [t].
Proof.
  unfold is_token. intros [Hne Hns]%andb_true_iff.
  unfold split. rewrite <- (app_nil_r t) at 1.
  rewrite split_from_nospace by assumption. simpl.
  destruct t; [discriminate | reflexivity].
Qed.

(** Splitting what [join] put together gives the tokens back. *)
Lemma split_join (l : list str) :
  Forall (fun t => is_token t = true) l -> split (join (py " ") l) = l.
Proof.
  induction l as [|x l IH]; intros H; [reflexivity|].
  inversion H as [|? ? Hx Hl]; subst.
  destruct l as [|y l].
  - simpl. now apply split_token.
  - change (join (py " ") (x :: y :: l))
      with (x ++ py " " ++ join (py " ") (y :: l)).
    rewrite split_app_space, (split_token x Hx), (IH Hl). reflexivity.
Qed.

Lemma first_occurrences_NoDup (l : list str) : NoDup (first_occurrences l).
Proof.
  induction l as [|x l IH]; simpl; constructor.
  - rewrite filter_In. intros [_ H]. now rewrite eqb_refl in H.
  - now apply NoDup_filter.
Qed.

Lemma first_occurrences_id (l : list str) :
  NoDup l -> first_occurrences l = l.
Proof.
  induction l as [|x l IH]; intros H; [reflexivity|].
  inversion H as [|? ? Hx Hl]; subst. simpl. rewrite (IH Hl). f_equal.
  clear IH H Hl. induction l as [|y l IH]; simpl; [reflexivity|].
  destruct (eqb_spec y x) as [->|Hy]; simpl.
  - exfalso. apply Hx. now left.
  - f_equal. apply IH. intros H. apply Hx. now right.
Qed.

Lemma first_occurrences_tokens (l : list str) :
  Forall (fun t => is_token t = true) l ->
  Forall (fun t => is_token t = true) (first_occurrences l).
Proof.
  rewrite !Forall_forall. intros H t Ht. apply H.
  now apply first_occurrences_In.
Qed.

Lemma split_dedup_tokens (v : str) :
  split (dedup_tokens v) = first_occurrences (split v).
Proof.
  unfold dedup_tokens. apply split_join, first_occurrences_tokens, split_tokens.
Qed.

Lemma dedup_tokens_normal (v : str) : normal_value (dedup_tokens v).
Proof.
  unfold normal_value. rewrite split_dedup_tokens.
  split; [apply first_occurrences_NoDup | reflexivity].
Qed.

Lemma normal_value_fixed (v : str) : normal_value v -> dedup_tokens v = v.
Proof.
  intros [Hnd Hj]. unfold dedup_tokens. now rewrite first_occurrences_id.
Qed.

Lemma dedup_tokens_idem (v : str) :
  dedup_tokens (dedup_tokens v) = dedup_tokens v.
Proof. apply normal_value_fixed, dedup_tokens_normal. Qed.

(** X6: [combine_sources] keeps the keys of both entries as they are (a
    field only the second entry has is not copied into the first), and
    every value of both entries ends as a list of distinct tokens
    separated by single spaces. *)
Theorem combine_sources_normalises (a b : source) :
  unique_keys a -> unique_keys b ->
  exists a' b',
    combine_sources a b = Return (a', b') /\
    keys a' = keys a /\ keys b' = keys b /\
    (forall k v, get a' k = Some v -> normal_value v) /\
    (forall k v, get b' k = Some v -> normal_value v).
Proof.
  intros Ha Hb.
  destruct (combine_sources_get Ha Hb)
    as (a' & b' & Hc & Hka & Hkb & Hga & Hgb).
  exists a', b'. repeat (split; [assumption|]). split.
  - intros k v. rewrite Hga. destruct (get a k); [|discriminate].
    intros [= <-]. apply dedup_tokens_normal.
  - intros k v. rewrite Hgb. destruct (get b k); [|discriminate].
    intros [= <-]. apply dedup_tokens_normal.
Qed.

Lemma combine_sources_normalises_witness :
  unique_keys ex_ident_a /\ unique_keys ex_ident_b /\
  exists a' b',
    combine_sources ex_ident_a ex_ident_b = Return (a', b') /\
    keys a' = keys ex_ident_a /\ keys b' = keys ex_ident_b.
Proof.
  split; [solve_unique_keys|]. split; [solve_unique_keys|].
  destruct (@combine_sources_normalises ex_ident_a ex_ident_b)
    as (a' & b' & Hc & Hka & Hkb & _);
    [solve_unique_keys | solve_unique_keys |].
  exists a', b'. auto.
Defined.

(** X7: the second entry is only normalised, and so is every field of the
    first entry that the second entry does not have: each value becomes
    the deduplicated tokens of its own original value. *)
Theorem combine_sources_unshared (a b : source) :
  unique_keys a -> unique_keys b ->
  exists a' b',
    combine_sources a b = Return (a', b') /\
    (forall k, get b' k = option_map dedup_tokens (get b k)) /\
    (forall k, get b k = None ->
               get a' k = option_map dedup_tokens (get a k)).
Proof.
  intros Ha Hb.
  destruct (combine_sources_get Ha Hb) as (a' & b' & Hc & _ & _ & Hga & Hgb).
  exists a', b'. split; [assumption|]. split; [assumption|].
  intros k Hk. rewrite Hga. destruct (get a k); [|reflexivity].
  simpl. now rewrite !concatenated_absent.
Qed.

Lemma combine_sources_unshared_witness :
  exists a' b',
    combine_sources ex_suites_a ex_suites_b = Return (a', b') /\
    get a' (py "Enabled") = Some (py "yes") /\
    get b' (py "Suites") = Some (py "focal jammy").
Proof.
  destruct (@combine_sources_unshared ex_suites_a ex_suites_b)
    as (a' & b' & Hc & Hb' & Ha');
    [solve_unique_keys | solve_unique_keys |].
  exists a', b'. split; [exact Hc|]. split.
  - rewrite Ha'; reflexivity.
  - rewrite Hb'. reflexivity.
Defined.

(** ** Merging twice *)

Lemma first_occurrences_absorb (l m : list str) :
  (forall y, In y m -> In y l) ->
  first_occurrences (first_occurrences l ++ m) = first_occurrences l.
Proof.
  intros Hsub.
  rewrite first_occurrences_app,
    (first_occurrences_id (first_occurrences_NoDup l)), filter_none.
  - apply app_nil_r.
  - intros y Hy. apply (proj1 (first_occurrences_In _ _)) in Hy.
    assert (Hm : mem y (first_occurrences l) = true)
      by (apply mem_In, first_occurrences_In; auto).
    now rewrite Hm.
Qed.

(** Appending the deduplicated tokens of [vb] to a value already merged
    with [vb] changes nothing. *)
Lemma dedup_tokens_merge_again (va vb : str) :
  let v' := dedup_tokens ((va ++ py " " ++ vb) ++ py " " ++ vb) in
  dedup_tokens ((v' ++ py " " ++ dedup_tokens vb) ++ py " " ++ dedup_tokens vb)
  = v'.
Proof.
  intros v'. unfold dedup_tokens at 1.
  rewrite !split_app_space, first_occurrences_app_twice.
  subst v'. rewrite !split_dedup_tokens, !split_app_space,
    first_occurrences_app_twice.
  rewrite first_occurrences_absorb.
  - unfold dedup_tokens.
    now rewrite !split_app_space, first_occurrences_app_twice.
  - intros y Hy. apply (proj1 (first_occurrences_In _ _)) in Hy.
    apply in_or_app. now right.
Qed.

(** Two dictionaries with the same unique keys and the same lookups are
    the same dictionary. *)
Lemma dict_ext (d d' : source) :
  keys d = keys d' -> unique_keys d ->
  (forall k, get d k = get d' k) -> d = d'.
Proof.
  unfold unique_keys. revert d'.
  induction d as [|[k v] d IH]; intros [|[k' v'] d'] Hk Hnd Hg;
    try discriminate; [reflexivity|].
  simpl in Hk. injection Hk as <- Hk.
  inversion Hnd as [|? ? Hnotin Hnd']; subst.
  pose proof (Hg k) as Hgk. simpl in Hgk. rewrite eqb_refl in Hgk.
  injection Hgk as <-. f_equal. apply IH; [assumption | assumption |].
  intros k0. specialize (Hg k0). simpl in Hg.
  destruct (eqb_spec k0 k) as [Heq|Hne]; [subst k0 | assumption].
  transitivity (@None str).
  - now apply get_None_keys.
  - symmetry. apply get_None_keys. now rewrite <- Hk.
Qed.

(** X8: merging is idempotent: merging the second entry again into the
    result of a merge changes neither entry. *)
Theorem combine_sources_idempotent (a b : source) :
  unique_keys a -> unique_keys b ->
  exists a' b',
    combine_sources a b = Return (a', b') /\
    combine_sources a' b' = Return (a', b').
Proof.
  intros Ha Hb.
  destruct (combine_sources_get Ha Hb)
    as (a' & b' & Hc & Hka & Hkb & Hga & Hgb).
  exists a', b'. split; [assumption|].
  assert (Ha' : unique_keys a') by (unfold unique_keys in *; congruence).
  assert (Hb' : unique_keys b') by (unfold unique_keys in *; congruence).
  destruct (combine_sources_get Ha' Hb')
    as (a2 & b2 & Hc2 & Hka2 & Hkb2 & Hga2 & Hgb2).
  rewrite Hc2. do 2 f_equal.
  - apply dict_ext; [assumption | unfold unique_keys in *; congruence |].
    intros k. rewrite Hga2, Hga.
    destruct (get a k) as [va|]; [|reflexivity]. simpl. f_equal.
    unfold concatenated. rewrite Hgb.
    destruct (mem k identity_keys); [apply dedup_tokens_idem|].
    destruct (get b k) as [vb|]; simpl.
    + apply dedup_tokens_merge_again.
    + apply dedup_tokens_idem.
  - apply dict_ext; [assumption | unfold unique_keys in *; congruence |].
    intros k. rewrite Hgb2, Hgb.
    destruct (get b k); [|reflexivity]. simpl. f_equal.
    apply dedup_tokens_idem.
Qed.

Lemma combine_sources_idempotent_witness :
  unique_keys ex_suites_a /\ unique_keys ex_suites_b /\
  exists a' b',
    combine_sources ex_suites_a ex_suites_b = Return (a', b') /\
    combine_sources a' b' = Return (a', b').
Proof.
  split; [solve_unique_keys|]. split; [solve_unique_keys|].
  apply (@combine_sources_idempotent ex_suites_a ex_suites_b);
    solve_unique_keys.
Defined.

(** ** Commented lines *)

Lemma lstrip_by_In (p : char -> bool) (s : str) (c : char) :
  In c (lstrip_by p s) -> In c s.
Proof.
  induction s as [|d s IH]; simpl; [tauto|].
  destruct (p d); simpl; tauto.
Qed.

Lemma rstrip_by_In (p : char -> bool) (s : str) (c : char) :
  In c (rstrip_by p s) -> In c s.
Proof.
  induction s as [|d s IH]; simpl; [tauto|].
  destruct (rstrip_by p s) as [|e r].
  - destruct (p d); simpl; tauto.
  - simpl in *. tauto.
Qed.

Lemma uncomment_no_hash (line : str) :
  startswith (py "#") (uncomment line) = false.
Proof.
  unfold uncomment. destruct (startswith (py "#") line) eqn:H; [|exact H].
  destruct (startswith (py "#") (strip (remove_char (chr "#") line))) eqn:H';
    [|reflexivity].
  destruct (startswith_hash _ H') as [r Hr]. exfalso.
  assert (Hin : In (chr "#") (remove_char (chr "#") line)).
  { apply (@lstrip_by_In isspace), (@rstrip_by_In isspace).
    unfold strip, strip_by in Hr. rewrite Hr. now left. }
  unfold remove_char in Hin. apply filter_In in Hin.
  destruct Hin as [_ Hin]. now rewrite N.eqb_refl in Hin.
Qed.

(** X9: a line is judged as its uncommented text is: validating a line
    that starts with a hash gives the result of validating the line with
    every hash removed and the surrounding whitespace stripped. *)
Theorem validate_debline_uncomment
  (urlparse : str -> outcome ParseResult) (line : str) :
  validate_debline urlparse line
  = validate_debline urlparse (uncomment line) /\
  (startswith (py "#") line = true ->
   validate_debline urlparse line
   = validate_debline urlparse (strip (remove_char (chr "#") line))).
Proof.
  assert (Hidem : uncomment (uncomment line) = uncomment line).
  { unfold uncomment at 1. now rewrite uncomment_no_hash. }
  assert (H1 : validate_debline urlparse line
               = validate_debline urlparse (uncomment line))
    by (unfold validate_debline; now rewrite Hidem).
  split; [exact H1|].
  intros Hh. rewrite H1. f_equal.
  unfold uncomment. now rewrite Hh.
Qed.

Lemma validate_debline_uncomment_witness :
  validate_debline urlparse_strict (py "## ppa:owner/name #")
  = validate_debline urlparse_strict (py "ppa:owner/name").
Proof.
  apply (proj2 (validate_debline_uncomment urlparse_strict
                  (py "## ppa:owner/name #"))).
  reflexivity.
Defined.

(** ** [url_validator] on the [urlparse] model *)

(** The text [urlsplit] looks for a scheme in. *)
Lemma urlparse_scheme (host_ok nfkc_ok : str -> bool) (url : str)
  (r : ParseResult) :
  Urllib.urlparse host_ok nfkc_ok url = Return r ->
  scheme r =
  fst (split_scheme
         (filter (fun c => negb (is_unsafe c))
            (lstrip_by is_c0_or_space url))).
Proof.
  unfold Urllib.urlparse, urlsplit.
  destruct (split_scheme _) as [sch u]. cbn [fst].
  destruct (startswith (py "//") u).
  - destruct (splitnetloc (skipn 2 u)) as [n u'].
    destruct (check_brackets host_ok n); cbn [bind]; [|discriminate].
    destruct (partition_at (chr "#") u') as [[u1 f]|];
      destruct (partition_at (chr "?") _) as [[u2 q]|];
      destruct (checknetloc nfkc_ok n); cbn [bind]; try discriminate;
      destruct (mem sch uses_params && _); intros [= <-]; reflexivity.
  - cbn [bind].
    destruct (partition_at (chr "#") u) as [[u1 f]|];
      destruct (partition_at (chr "?") _) as [[u2 q]|];
      destruct (checknetloc nfkc_ok []); cbn [bind]; try discriminate;
      destruct (mem sch uses_params && _); intros [= <-]; reflexivity.
Qed.

Lemma partition_at_absent (c : char) (s : str) :
  has_char c s = false -> partition_at c s = None.
Proof.
  induction s as [|d s IH]; simpl; [reflexivity|].
  rewrite N.eqb_sym. destruct (N.eqb d c); simpl; [discriminate|].
  intros H. now rewrite (IH H).
Qed.

Lemma has_char_In (c : char) (s : str) : has_char c s = true <-> In c s.
Proof.
  unfold has_char. rewrite existsb_exists. split.
  - intros (x & Hx & He). apply N.eqb_eq in He. now subst.
  - intros H. exists c. split; [assumption | apply N.eqb_refl].
Qed.

Lemma has_char_false_sub (c : char) (s t : str) :
  (forall x, In x t -> In x s) -> has_char c s = false -> has_char c t = false.
Proof.
  intros Hsub Hs. destruct (has_char c t) eqn:Ht; [|reflexivity].
  apply has_char_In in Ht. apply Hsub, has_char_In in Ht. congruence.
Qed.

(** X10: a string without a colon has no scheme and is never a valid
    URL, whatever else it contains. *)
Theorem url_validator_needs_colon (host_ok nfkc_ok : str -> bool)
  (url : str) :
  has_char (chr ":") url = false ->
  url_validator (Urllib.urlparse host_ok nfkc_ok) url = Return false.
Proof.
  intros Hc. rewrite url_validator_eq.
  destruct (Urllib.urlparse host_ok nfkc_ok url) as [r|e] eqn:Hp;
    [|reflexivity].
  apply urlparse_scheme in Hp. unfold split_scheme in Hp.
  rewrite partition_at_absent in Hp.
  - cbn [fst] in Hp. now rewrite Hp.
  - apply (has_char_false_sub _ url); [|assumption].
    intros x Hx. apply filter_In in Hx. destruct Hx as [Hx _].
    now apply lstrip_by_In in Hx.
Qed.

Lemma url_validator_needs_colon_witness :
  url_validator urlparse_strict (py "example.com/ubuntu") = Return false.
Proof.
  apply (@url_validator_needs_colon (fun _ => false) (fun _ => false)
           (py "example.com/ubuntu")).
  reflexivity.
Defined.

Lemma is_scheme_char_lower (c : char) :
  is_scheme_char (lower c) = true -> is_scheme_char c = true.
Proof.
  unfold lower. destruct ((65 <=? c)%N && (c <=? 90)%N) eqn:U; [|tauto].
  intros _. unfold is_scheme_char, is_ascii_alpha. now rewrite U.
Qed.

Lemma is_ascii_alpha_lower (c : char) :
  is_ascii_alpha (lower c) = true -> is_ascii_alpha c = true.
Proof.
  unfold lower. destruct ((65 <=? c)%N && (c <=? 90)%N) eqn:U; [|tauto].
  intros _. unfold is_ascii_alpha. now rewrite U.
Qed.

(** Scheme characters are untouched by the cleaning [urlsplit] starts
    with, and none of them is a colon. *)
Lemma is_scheme_char_plain (c : char) :
  is_scheme_char c = true ->
  is_c0_or_space c = false /\ is_unsafe c = false /\
  N.eqb c (chr ":") = false.
Proof.
  unfold is_scheme_char, is_ascii_alpha, is_digit, is_c0_or_space, is_unsafe.
  change (has_char c (py "+-."))
    with ((c =? 43) || ((c =? 45) || ((c =? 46) || false)))%N.
  change (chr ":") with 58%N.
  rewrite !orb_true_iff, !andb_true_iff, !N.leb_le, !N.eqb_eq.
  intros H.
  rewrite !orb_false_iff, N.leb_gt, !N.eqb_neq.
  repeat split; lia.
Qed.

Lemma forallb_map_back (f : char -> bool) (g : char -> char) (l : str) :
  (forall c, f (g c) = true -> f c = true) ->
  forallb f (map g l) = true -> forallb f l = true.
Proof.
  intros Hfg. induction l as [|c l IH]; simpl; [reflexivity|].
  intros [Hc Hl]%andb_true_iff. rewrite (Hfg c Hc). now apply IH.
Qed.

Lemma filter_all {A} (f : A -> bool) (l : list A) :
  forallb f l = true -> filter f l = l.
Proof.
  induction l as [|x l IH]; simpl; [reflexivity|].
  intros [Hx Hl]%andb_true_iff. now rewrite Hx, IH.
Qed.

Lemma partition_at_app (c : char) (pre rest : str) :
  forallb (fun d => negb (N.eqb d c)) pre = true ->
  partition_at c (pre ++ c :: rest) = Some (pre, rest).
Proof.
  induction pre as [|d pre IH]; simpl.
  - now rewrite N.eqb_refl.
  - intros [Hd Hp]%andb_true_iff. apply negb_true_iff in Hd.
    now rewrite Hd, (IH Hp).
Qed.

(** A well-formed scheme in front of a colon is found by [urlsplit] and
    lowered. *)
Lemma split_scheme_found (c0 : char) (pre rest : str) :
  is_ascii_alpha c0 = true ->
  forallb is_scheme_char (c0 :: pre) = true ->
  split_scheme
    (filter (fun c => negb (is_unsafe c))
       (lstrip_by is_c0_or_space ((c0 :: pre) ++ chr ":" :: rest)))
  = (map lower (c0 :: pre), filter (fun c => negb (is_unsafe c)) rest).
Proof.
  intros Ha Hall.
  assert (Hplain : forall c, In c (c0 :: pre) ->
            is_c0_or_space c = false /\ is_unsafe c = false /\
            N.eqb c (chr ":") = false).
  { intros c Hc. apply is_scheme_char_plain.
    rewrite forallb_forall in Hall. now apply Hall. }
  destruct (Hplain c0 (or_introl eq_refl)) as (H0 & _ & _).
  cbn [app lstrip_by]. rewrite H0.
  change (c0 :: pre ++ chr ":" :: rest)
    with ((c0 :: pre) ++ chr ":" :: rest).
  rewrite filter_app, filter_all.
  2:{ apply forallb_forall. intros c Hc.
      destruct (Hplain c Hc) as (_ & -> & _). reflexivity. }
  cbn [filter]. change (negb (is_unsafe (chr ":"))) with true. cbv iota.
  unfold split_scheme. rewrite partition_at_app.
  2:{ apply forallb_forall. intros c Hc.
      destruct (Hplain c Hc) as (_ & _ & ->). reflexivity. }
  now rewrite Ha, Hall.
Qed.

(** X11: a string whose text before the first colon is [x-repolib-name]
    in any letter case is never a valid URL: [urlparse] lowers the scheme
    and [url_validator] rejects it. *)
Theorem url_validator_rejects_name (host_ok nfkc_ok : str -> bool)
  (pre rest : str) :
  map lower pre = py "x-repolib-name" ->
  url_validator (Urllib.urlparse host_ok nfkc_ok) (pre ++ py ":" ++ rest)
  = Return false.
Proof.
  intros Hpre. rewrite url_validator_eq.
  destruct (Urllib.urlparse host_ok nfkc_ok (pre ++ py ":" ++ rest))
    as [r|e] eqn:Hp; [|reflexivity].
  apply urlparse_scheme in Hp.
  destruct pre as [|c0 pre]; [discriminate|].
  change (py ":" ++ rest) with (chr ":" :: rest) in Hp.
  rewrite split_scheme_found in Hp.
  - cbn [fst] in Hp. rewrite Hp, Hpre. reflexivity.
  - apply is_ascii_alpha_lower. injection Hpre as -> _. reflexivity.
  - apply (forallb_map_back is_scheme_char lower);
      [exact is_scheme_char_lower|].
    rewrite Hpre. reflexivity.
Qed.

Lemma url_validator_rejects_name_witness :
  url_validator urlparse_strict (py "X-Repolib-Name: //example.com/repo")
  = Return false.
Proof.
  apply (@url_validator_rejects_name (fun _ => false) (fun _ => false)
           (py "X-Repolib-Name") (py " //example.com/repo")).
  reflexivity.
Defined.

(** ** What [strip_hashes] removes and what it keeps *)

Lemma lstrip_by_prefix (p : char -> bool) (s : str) :
  exists pre, s = pre ++ lstrip_by p s /\ forallb p pre = true.
Proof.
  induction s as [|c s (pre & Hs & Hp)]; simpl.
  - now exists [].
  - destruct (p c) eqn:Hc.
    + exists (c :: pre). simpl. rewrite Hc, Hp. split; [now f_equal|reflexivity].
    + now exists [].
Qed.

Lemma rstrip_by_suffix (p : char -> bool) (s : str) :
  exists post, s = rstrip_by p s ++ post /\ forallb p post = true.
Proof.
  induction s as [|c s (post & Hs & Hp)]; simpl.
  - now exists [].
  - destruct (rstrip_by p s) as [|d r] eqn:E.
    + simpl in Hs. subst post. destruct (p c) eqn:Hc.
      * exists (c :: s). simpl. now rewrite Hc, Hp.
      * exists s. now split.
    + exists post. split; [|assumption]. simpl. now f_equal.
Qed.

Lemma strip_by_middle (p q : char -> bool) (s : str) :
  (forall c, p c = true -> q c = true) ->
  exists pre post, s = pre ++ strip_by p s ++ post /\
                   forallb q pre = true /\ forallb q post = true.
Proof.
  intros Hpq. unfold strip_by.
  destruct (lstrip_by_prefix p s) as (pre & Hs & Hpre).
  destruct (rstrip_by_suffix p (lstrip_by p s)) as (post & Hl & Hpost).
  exists pre, post. split; [now rewrite <- Hl|].
  rewrite forallb_forall in Hpre, Hpost.
  split; apply forallb_forall; auto.
Qed.

Lemma strip_hashes_loop_middle (fuel : nat) (line r : str) :
  strip_hashes_loop fuel line = Some r ->
  exists pre post, line = pre ++ r ++ post /\
                   forallb trimmed pre = true /\ forallb trimmed post = true.
Proof.
  revert line. induction fuel as [|fuel IH]; intros line; [discriminate|].
  cbn [strip_hashes_loop].
  destruct (strip_by_middle (fun c => has_char c (py "#")) trimmed line)
    as (pre1 & post1 & H1 & Hpre1 & Hpost1).
  { intros c. unfold trimmed. cbn. rewrite orb_false_r, N.eqb_sym.
    intros ->. reflexivity. }
  fold (strip_chars (py "#") line) in H1.
  destruct (strip_by_middle isspace trimmed (strip_chars (py "#") line))
    as (pre2 & post2 & H2 & Hpre2 & Hpost2).
  { intros c Hc. unfold trimmed. now rewrite Hc, orb_true_r. }
  fold (strip (strip_chars (py "#") line)) in H2.
  assert (Hout : forall r0 pre post,
            strip (strip_chars (py "#") line) = pre ++ r0 ++ post ->
            forallb trimmed pre = true -> forallb trimmed post = true ->
            exists pre' post', line = pre' ++ r0 ++ post' /\
              forallb trimmed pre' = true /\ forallb trimmed post' = true).
  { intros r0 pre post Hr Hp Hq.
    exists (pre1 ++ pre2 ++ pre), (post ++ post2 ++ post1).
    split.
    - rewrite H1 at 1. rewrite H2 at 1. rewrite Hr.
      now rewrite <- !app_assoc.
    - rewrite !forallb_app, Hpre1, Hpre2, Hp, Hq, Hpost2, Hpost1.
      now split. }
  destruct (negb (startswith (py "#") (strip (strip_chars (py "#") line)))).
  - intros [= <-]. apply (Hout _ [] []); [|reflexivity|reflexivity].
    now rewrite app_nil_r.
  - intros Hr. destruct (IH _ Hr) as (pre & post & Hl & Hp & Hq).
    now apply (Hout r pre post).
Qed.

(** X12: [strip_hashes] only trims: the line it returns is a contiguous
    part of the given line, and what it drops before and after it consists
    of hashes and whitespace only. *)
Theorem strip_hashes_trims (line r : str) :
  strip_hashes line = Some r ->
  exists pre post, line = pre ++ r ++ post /\
                   forallb trimmed pre = true /\ forallb trimmed post = true.
Proof. apply strip_hashes_loop_middle. Qed.

Lemma strip_hashes_trims_witness :
  exists pre post,
    py "# deb http://example.com/ stable main  #" =
    pre ++ py "deb http://example.com/ stable main" ++ post /\
    forallb trimmed pre = true /\ forallb trimmed post = true.
Proof.
  apply (@strip_hashes_trims
           (py "# deb http://example.com/ stable main  #")
           (py "deb http://example.com/ stable main")).
  reflexivity.
Defined.

Lemma lstrip_by_id (p : char -> bool) (w : str) :
  (forall c s, w = c :: s -> p c = false) -> lstrip_by p w = w.
Proof.
  destruct w as [|c w]; intros H; simpl; [reflexivity|].
  now rewrite (H c w eq_refl).
Qed.

Lemma rstrip_by_id (p : char -> bool) (w : str) :
  (forall c s, w = s ++ [c] -> p c = false) -> rstrip_by p w = w.
Proof.
  intros H. rewrite rstrip_by_rev, lstrip_by_id; [apply rev_involutive|].
  intros c s Hr. apply (H c (rev s)).
  rewrite <- (rev_involutive w), Hr. reflexivity.
Qed.

Lemma rstrip_by_snoc (p : char -> bool) (l : str) (x : char) :
  p x = true -> rstrip_by p (l ++ [x]) = rstrip_by p l.
Proof.
  intros Hx. rewrite !rstrip_by_rev, rev_app_distr. simpl. now rewrite Hx.
Qed.

Lemma trimmed_false (c : char) :
  trimmed c = false ->
  has_char c (py "#") = false /\ isspace c = false /\
  N.eqb (chr "#") c = false.
Proof.
  unfold trimmed. change (chr "#") with 35%N.
  change (has_char c (py "#")) with ((c =? 35)%N || false).
  intros [H1 H2]%orb_false_iff.
  rewrite (N.eqb_sym 35 c), H1, H2. auto.
Qed.

(** X13: a line that neither begins nor ends with a hash or whitespace is
    returned as it is. *)
Theorem strip_hashes_plain (w : str) :
  plain_ends w -> strip_hashes w = Some w.
Proof.
  intros [Hhd Hlast]. unfold strip_hashes. cbn [strip_hashes_loop].
  assert (H1 : strip_chars (py "#") w = w).
  { unfold strip_chars, strip_by.
    rewrite lstrip_by_id, rstrip_by_id; [reflexivity| |];
      intros c s Hw;
      first [destruct (@trimmed_false c (Hlast c s Hw)) as (? & ? & ?)
            | destruct (@trimmed_false c (Hhd c s Hw)) as (? & ? & ?)];
      cbv beta; assumption. }
  assert (H2 : strip w = w).
  { unfold strip, strip_by.
    rewrite lstrip_by_id, rstrip_by_id; [reflexivity| |];
      intros c s Hw;
      first [destruct (@trimmed_false c (Hlast c s Hw)) as (? & ? & ?)
            | destruct (@trimmed_false c (Hhd c s Hw)) as (? & ? & ?)];
      cbv beta; assumption. }
  rewrite H1, H2.
  destruct w as [|c w]; [reflexivity|].
  change (py "#") with [chr "#"]. cbn [startswith].
  destruct (@trimmed_false c (Hhd c w eq_refl)) as (_ & _ & ->). reflexivity.
Qed.

Lemma plain_ends_example : plain_ends (py "deb http://example.com/#x main").
Proof.
  split.
  - intros c s [= <- _]. reflexivity.
  - intros c s H.
    change (py "deb http://example.com/#x main")
      with (py "deb http://example.com/#x mai" ++ [chr "n"]) in H.
    apply app_inj_tail in H. destruct H as [_ <-]. reflexivity.
Defined.

Lemma strip_hashes_plain_witness :
  strip_hashes (py "deb http://example.com/#x main")
  = Some (py "deb http://example.com/#x main").
Proof.
  apply (@strip_hashes_plain (py "deb http://example.com/#x main")).
  exact plain_ends_example.
Defined.

Lemma rstrip_by_snoc_id (p : char -> bool) (l : str) (x : char) :
  p x = false -> rstrip_by p (l ++ [x]) = l ++ [x].
Proof.
  intros Hx. apply rstrip_by_id. intros c s H.
  apply app_inj_tail in H. destruct H as [_ <-]. exact Hx.
Qed.

Lemma lstrip_by_cons_id (p : char -> bool) (c : char) (s : str) :
  p c = false -> lstrip_by p (c :: s) = c :: s.
Proof. intros H. simpl. now rewrite H. Qed.

(** X14: a hash at the end of the text survives when whitespace follows
    it, although the same text without that whitespace loses it; so
    running [strip_hashes] on its own result can strip more. *)
Theorem strip_hashes_inner_hash (w : str) :
  w <> [] -> plain_ends w ->
  strip_hashes (w ++ py "# ") = Some (w ++ py "#") /\
  strip_hashes (w ++ py "#") = Some w.
Proof.
  intros Hne [Hhd Hlast].
  destruct w as [|c w]; [contradiction|].
  destruct (@trimmed_false c (Hhd c w eq_refl)) as (Hc1 & Hc2 & Hc3).
  assert (Hw : rstrip_by isspace (c :: w) = c :: w /\
               rstrip_by (fun c => has_char c (py "#")) (c :: w) = c :: w).
  { split; apply rstrip_by_id; intros d s Hd;
      destruct (@trimmed_false d (Hlast d s Hd)) as (? & ? & ?); assumption. }
  destruct Hw as [Hw1 Hw2].
  unfold strip_hashes. cbn [strip_hashes_loop].
  change (py "# ") with ([chr "#"] ++ [chr " "]).
  change (py "#") with [chr "#"] in *.
  split.
  - rewrite app_assoc.
    unfold strip_chars, strip, strip_by. cbn [app].
    rewrite (lstrip_by_cons_id _ _ _ Hc1).
    change (c :: (w ++ [chr "#"]) ++ [chr " "])
      with (((c :: w) ++ [chr "#"]) ++ [chr " "]).
    rewrite rstrip_by_snoc_id by reflexivity.
    cbn [app]. rewrite (lstrip_by_cons_id _ _ _ Hc2).
    change (c :: (w ++ [chr "#"]) ++ [chr " "])
      with (((c :: w) ++ [chr "#"]) ++ [chr " "]).
    rewrite rstrip_by_snoc by reflexivity.
    rewrite rstrip_by_snoc_id by reflexivity.
    cbn [app startswith]. now rewrite Hc3.
  - unfold strip_chars, strip, strip_by. cbn [app].
    rewrite (lstrip_by_cons_id _ _ _ Hc1).
    change (c :: w ++ [chr "#"]) with ((c :: w) ++ [chr "#"]).
    rewrite rstrip_by_snoc by reflexivity.
    rewrite Hw2, (lstrip_by_cons_id _ _ _ Hc2), Hw1.
    cbn [startswith]. now rewrite Hc3.
Qed.

Lemma strip_hashes_inner_hash_witness :
  strip_hashes (py "deb http://example.com/#x main# ")
  = Some (py "deb http://example.com/#x main#") /\
  strip_hashes (py "deb http://example.com/#x main#")
  = Some (py "deb http://example.com/#x main").
Proof.
  apply (@strip_hashes_inner_hash (py "deb http://example.com/#x main")).
  - discriminate.
  - exact plain_ends_example.
Defined.

(** ** [fetch_key]: when it returns *)

(** X15: [fetch_key] returns data exactly when the request for
    [query_url + fingerprint] returns a response and reading it returns the
    data; an exception of the request that is not a [URLError] reaches the
    caller unchanged. *)
Theorem fetch_key_returns (response : Type)
  (urlopen : str -> outcome response) (read : response -> outcome str)
  (fingerprint query_url : str) :
  (forall data,
     fetch_key urlopen read fingerprint query_url = Return data <->
     exists r, urlopen (query_url ++ fingerprint) = Return r /\
               read r = Return data) /\
  (forall e, urlopen (query_url ++ fingerprint) = Raise e ->
             is_URLError e = false ->
             fetch_key urlopen read fingerprint query_url = Raise e).
Proof.
  unfold fetch_key. split.
  - intros data. destruct (urlopen (query_url ++ fingerprint)) as [r|e];
      cbn [bind try_except_cls].
    + split; [intros H; now exists r | intros (r' & [= <-] & H); exact H].
    + destruct (is_URLError e); cbn [bind].
      * split; [discriminate | intros (r & [=] & _)].
      * split; [discriminate | intros (r & [=] & _)].
  - intros e -> He. cbn [bind try_except_cls]. now rewrite He.
Qed.

Lemma fetch_key_returns_witness :
  fetch_key (fun _ : str => Return (py "KEY")) (fun r => Return r)
    (py "8BAF9A6F") KEYSERVER_QUERY_URL
  = Return (py "KEY")
  /\ fetch_key (fun _ : str => @Raise str ValueError) (fun r => Return r)
       (py "8BAF9A6F") KEYSERVER_QUERY_URL
     = Raise ValueError.
Proof.
  split.
  - apply (proj1 (@fetch_key_returns str (fun _ => Return (py "KEY"))
                    (fun r => Return r) (py "8BAF9A6F") KEYSERVER_QUERY_URL)).
    exists (py "KEY"). split; reflexivity.
  - apply (proj2 (@fetch_key_returns str (fun _ => Raise ValueError)
                    (fun r => Return r) (py "8BAF9A6F") KEYSERVER_QUERY_URL));
      reflexivity.
Defined.

(** ** The option tables *)

(** Case analysis on a lookup in a literal dictionary. *)
Ltac lookup_cases H :=
  cbn [get] in H;
  repeat match type of H with
         | context [eqb ?x ?y] =>
             let Heq := fresh "Heq" in
             destruct (eqb_spec x y) as [Heq|?];
             [subst x; injection H as <-; vm_compute;
              first [reflexivity | repeat (first [left; reflexivity | right])]
             | cbv iota in H]
         end;
  try discriminate H.

(** X16: [options_inmap] and [options_outmap] are inverse to each other:
    a short option name is mapped to a field name exactly when the field
    name is mapped back to it. *)
Theorem options_maps_inverse (k v : str) :
  get options_inmap k = Some v <-> get options_outmap v = Some k.
Proof.
  split; intros H.
  - unfold options_inmap in H. lookup_cases H.
  - unfold options_outmap in H. lookup_cases H.
Qed.

(** X17: every field name an option stands for is one of [valid_keys],
    written there with its colon. *)
Theorem options_are_valid_keys (k v : str) :
  get options_inmap k = Some v -> In (v ++ py ":") valid_keys.
Proof.
  intros H. unfold options_inmap in H. lookup_cases H.
Qed.

Lemma options_are_valid_keys_witness :
  In (py "Signed-By:") valid_keys.
Proof.
  apply (@options_are_valid_keys (py "signed-by") (py "Signed-By")).
  reflexivity.
Defined.

(** ** [CLEAN_CHARS] *)

Ltac table_cases H :=
  cbn [table_get] in H;
  repeat match type of H with
         | context [N.eqb ?x ?y] =>
             destruct (N.eqb_spec x y) as [->|?];
             [first [discriminate H | injection H as <-; reflexivity]
             | cbv iota in H]
         end;
  try discriminate H.

(** No replacement character of the table is itself in the table. *)
Lemma CLEAN_CHARS_image (c d : char) :
  table_get CLEAN_CHARS c = Some (Some d) -> table_get CLEAN_CHARS d = None.
Proof.
  intros H. unfold CLEAN_CHARS in H. table_cases H.
Qed.

(** X18: a string cleaned with [CLEAN_CHARS] contains none of the
    characters of the table, is no longer than the original, and cleaning
    it again changes nothing. *)
Theorem CLEAN_CHARS_clean (s : str) :
  (forall c, In c (translate CLEAN_CHARS s) ->
             table_get CLEAN_CHARS c = None) /\
  length (translate CLEAN_CHARS s) <= length s /\
  translate CLEAN_CHARS (translate CLEAN_CHARS s) = translate CLEAN_CHARS s.
Proof.
  assert (Hclean : forall c, In c (translate CLEAN_CHARS s) ->
                     table_get CLEAN_CHARS c = None).
  { intros c Hc. unfold translate in Hc. apply in_flat_map in Hc.
    destruct Hc as (x & _ & Hc).
    destruct (table_get CLEAN_CHARS x) as [[d|]|] eqn:Hx.
    - destruct Hc as [<-|[]]. exact (CLEAN_CHARS_image _ Hx).
    - destruct Hc.
    - destruct Hc as [<-|[]]. exact Hx. }
  split; [exact Hclean|]. split.
  - clear Hclean. unfold translate. induction s as [|x s IH]; [simpl; lia|].
    cbn [flat_map]. rewrite length_app.
    destruct (table_get CLEAN_CHARS x) as [[d|]|]; cbn [length]; lia.
  - revert Hclean. generalize (translate CLEAN_CHARS s). intros r Hr.
    induction r as [|x r IH]; [reflexivity|].
    unfold translate in *. cbn [flat_map].
    rewrite (Hr x (or_introl eq_refl)). cbn [app]. f_equal.
    apply IH. intros c Hc. apply Hr. now right.
Qed.

(** ** [SourceType.ident] *)

(** X19: [ident] gives [binary] for the binary type and [source] for the
    source code type; had [deb] been replaced before [deb-src], the source
    code type would have come out as [binary-src]. *)
Theorem SourceType_ident (t : SourceType) :
  ident t = match t with
            | BINARY => py "binary"
            | SOURCECODE => py "source"
            end /\
  replace (py "deb-src") (py "source")
    (replace (py "deb") (py "binary") (SourceType_value SOURCECODE))
  = py "binary-src".
Proof. destruct t; split; reflexivity. Qed.

(** ** The directories *)

Section PathResolverFacts.

Variable fspath : Type.
Variable Path : str -> fspath.
Variable joinpath : fspath -> str -> fspath.
Variable world : Type.
Variable mkdir : fspath -> world -> outcome unit * world.
Variable path_exists : fspath -> world -> outcome bool.

Local Abbreviation after_call' := (after_call Path joinpath mkdir path_exists).
Local Abbreviation after_calls' := (after_calls Path joinpath mkdir path_exists).
Local Abbreviation get_source_path' :=
  (get_source_path Path joinpath mkdir path_exists).

Ltac run_unfold :=
  cbv [after_call get_sources_dir get_keys_dir get_source_path
       prettyprint_enable run_bind run_ret set_globals get_globals
       do_mkdir do_exists debug st_globals st_world st_log
       SOURCES_DIR KEYS_DIR PRETTY_PRINT fst snd].

Ltac run_cases :=
  repeat first
    [ reflexivity
    | match goal with
      | |- context [mkdir ?p ?w] => destruct (mkdir p w) as [[[]|?] ?]
      | |- context [path_exists ?p ?w] =>
          destruct (path_exists p w) as [[|]|?]
      end; run_unfold ].

Lemma after_call_dirs (c : call) (st : state fspath world) :
  SOURCES_DIR (st_globals (after_call' c st)) =
  (if sets_sources_testing c then py "/tmp/repolib_testing"
   else SOURCES_DIR (st_globals st)) /\
  KEYS_DIR (st_globals (after_call' c st)) =
  (if sets_keys_testing c then py "/tmp/replib_testing/keys"
   else KEYS_DIR (st_globals st)).
Proof.
  destruct st as [g w l].
  destruct c as [[|]|[|]|name [|]|[|]];
    cbv [sets_sources_testing sets_keys_testing]; run_unfold;
    split; run_cases.
Qed.

(** X20: after any sequence of calls of [get_sources_dir], [get_keys_dir],
    [get_source_path] and [prettyprint_enable], whether they return or
    raise, [SOURCES_DIR] is the testing directory if one of the calls was
    [get_sources_dir(testing=True)] and is unchanged otherwise, and
    [KEYS_DIR] likewise with [get_keys_dir(testing=True)]: testing mode is
    never left, and nothing else moves the directories. *)
Theorem testing_mode_is_one_way (cs : list call) (st : state fspath world) :
  SOURCES_DIR (st_globals (after_calls' cs st)) =
  (if existsb sets_sources_testing cs then py "/tmp/repolib_testing"
   else SOURCES_DIR (st_globals st)) /\
  KEYS_DIR (st_globals (after_calls' cs st)) =
  (if existsb sets_keys_testing cs then py "/tmp/replib_testing/keys"
   else KEYS_DIR (st_globals st)).
Proof.
  revert st. induction cs as [|c cs IH]; intros st; [split; reflexivity|].
  unfold after_calls in *. cbn [fold_left existsb].
  destruct (IH (after_call' c st)) as [-> ->].
  destruct (after_call_dirs c st) as [-> ->].
  destruct (sets_sources_testing c), (sets_keys_testing c); cbn;
    split; try reflexivity;
    destruct (existsb sets_sources_testing cs);
    destruct (existsb sets_keys_testing cs); reflexivity.
Qed.

(** X21: [get_source_path] returns nothing but the [.sources] or the
    [.list] path under the sources directory; it returns the [.sources]
    path whenever that exists once the directory is made, whether or not a
    [.list] file exists too; it returns [None] only after both were found
    missing; and it leaves the module variables alone and, without a
    logger, the log. *)
Theorem get_source_path_spec (name : str) (log : bool)
  (st : state fspath world) :
  let d := Path (SOURCES_DIR (st_globals st)) in
  let p1 := joinpath d (name ++ py ".sources") in
  let p2 := joinpath d (name ++ py ".list") in
  let res := get_source_path' name log st in
  (forall p, fst res = Return (Some p) -> p = p1 \/ p = p2) /\
  (forall w1, mkdir d (st_world st) = (Return tt, w1) ->
              path_exists p1 w1 = Return true ->
              fst res = Return (Some p1)) /\
  (fst res = Return None ->
   exists w1 w2,
     mkdir d (st_world st) = (Return tt, w1) /\
     path_exists p1 w1 = Return false /\
     mkdir d w1 = (Return tt, w2) /\
     path_exists p2 w2 = Return false) /\
  st_globals (snd res) = st_globals st /\
  (log = false -> st_log (snd res) = st_log st).
Proof.
  destruct st as [g w l]. intros d p1 p2 res. subst res d p1 p2.
  destruct log;
    cbv [get_sources_dir get_source_path run_bind run_ret set_globals
         get_globals do_mkdir do_exists debug st_globals st_world st_log
         fst snd];
    repeat (match goal with
            | |- context [mkdir ?p ?x] =>
                destruct (mkdir p x) as [[[]|?] ?] eqn:?
            | |- context [path_exists ?p ?x] =>
                destruct (path_exists p x) as [[|]|?] eqn:?
            end; cbv beta iota);
    repeat split;
    first
      [ reflexivity
      | intros p Hp;
        (discriminate Hp || (injection Hp as <-; (now left) || (now right)))
      | intros w1' Hw Hx;
        (discriminate Hw
         || (injection Hw as <-; first [reflexivity | congruence]))
      | intros Hn;
        (discriminate Hn || (eexists; eexists; repeat split; eassumption)) ].
Qed.

End PathResolverFacts.

Lemma get_source_path_spec_witness :
  fst (get_source_path (fun s => s) ex_joinpath ex_mkdir ex_exists
         (py "myrepo") false ex_state)
  = Return (Some (py "/etc/apt/sources.list.d/myrepo.sources")).
Proof.
  apply (proj1 (proj2 (@get_source_path_spec str (fun s => s) ex_joinpath
                         (list str) ex_mkdir ex_exists
                         (py "myrepo") false ex_state))
           (py "/etc/apt/sources.list.d" :: st_world ex_state));
    reflexivity.
Defined.

(** ** Instances *)

Lemma find_differences_sources_keys_witness :
  exists d, find_differences_sources ex_focal ex_jammy [] = Return d /\
            In (py "Suites") (keys d) /\
            ~ In (py "X-Repolib-Name") (keys d).
Proof.
  destruct (find_differences_sources_keys ex_focal ex_jammy [])
    as (d & Hd & _ & Hk).
  exists d. split; [exact Hd|]. split.
  - apply Hk. split; [intros []|]. split; [left; simpl; tauto|].
    intros (v & Ha & Hb). vm_compute in Ha, Hb. congruence.
  - intros Hin. apply Hk in Hin. destruct Hin as (_ & _ & Hne).
    apply Hne. exists (py "Example"). split; reflexivity.
Defined.

Lemma options_maps_inverse_witness :
  get options_outmap (py "Architectures") = Some (py "arch").
Proof.
  apply (proj1 (options_maps_inverse (py "arch") (py "Architectures"))).
  reflexivity.
Defined.

Lemma CLEAN_CHARS_clean_witness :
  translate CLEAN_CHARS (py "Ubuntu (focal): main/universe")
  = py "Ubuntu_focal_main_universe" /\
  table_get CLEAN_CHARS (chr "_") = None.
Proof.
  split; [reflexivity|].
  apply (proj1 (CLEAN_CHARS_clean (py "Ubuntu (focal): main/universe"))).
  vm_compute. tauto.
Defined.
